(** * ASCII-Unicode Diacritics Analyzer: a shallow embedding of the
      classification core of [LD-PDP-ASCII-Unicode-Diacritics-Analyzer-Tool.py].

    Python strings are lists of code points ([N]); a character is a string of
    length one, so a single code point.  The Unicode character database that
    the script reaches through [unicodedata] is an interface (a record of
    lookup functions): every theorem of the analyzer holds for any database.
    The in-memory SQLite table is the list of its rows in rowid order, which is
    the order of a SELECT without ORDER BY over that table.  Python exceptions
    are a small error monad. *)

From Stdlib Require Import NArith List String Ascii Bool Lia.
From stdpp Require Import gmap.
Import ListNotations.

Local Open Scope N_scope.

(** ** Python values *)

Abbreviation char := N (only parsing).
Abbreviation str := (list N) (only parsing).

(** A string literal of the source, as code points. *)
Definition lit (s : string) : str := map N_of_ascii (list_ascii_of_string s).

Inductive exn : Type := IndexError | ValueError.

Inductive py (A : Type) : Type :=
| Ok (a : A)
| Raise (e : exn).
Arguments Ok {A} a.
Arguments Raise {A} e.

Definition bind {A B : Type} (m : py A) (k : A -> py B) : py B :=
  match m with
  | Ok a => k a
  | Raise e => Raise e
  end.

Notation "'do' x <- m ; k" := (bind m (fun x => k))
  (at level 10, x pattern, m at level 100, k at level 200).

(** [for x in xs: st = body st x], stopping at the first exception. *)
Fixpoint for_each {A S : Type} (body : S -> A -> py S) (xs : list A) (st : S) : py S :=
  match xs with
  | [] => Ok st
  | x :: xs' => do st' <- body st x; for_each body xs' st'
  end.

(** [s[i]] for a non-negative index. *)
Definition index (s : str) (i : nat) : py char :=
  match nth_error s i with
  | Some c => Ok c
  | None => Raise IndexError
  end.

(** [xs[i]] on a list. *)
Definition nth_py {A : Type} (xs : list A) (i : nat) : py A :=
  match nth_error xs i with
  | Some x => Ok x
  | None => Raise IndexError
  end.

(** [s.startswith(p)]. *)
Fixpoint startswith (s p : str) : bool :=
  match p, s with
  | [], _ => true
  | _ :: _, [] => false
  | a :: p', b :: s' => (a =? b) && startswith s' p'
  end.

(** [sub in s] on strings: [sub] occurs in [s] as a contiguous substring. *)
Fixpoint contains (sub s : str) : bool :=
  startswith s sub ||
  match s with
  | [] => false
  | _ :: s' => contains sub s'
  end.

(** [sep.join(parts)]. *)
Fixpoint join (sep : str) (parts : list str) : str :=
  match parts with
  | [] => []
  | [p] => p
  | p :: ps => p ++ sep ++ join sep ps
  end.

(** [sum(1 for _ in xs)]. *)
Definition sum_ones {A : Type} (xs : list A) : N :=
  fold_left N.add (map (fun _ => 1) xs) 0.

(** The characters [str.split()] treats as white space. *)
Definition isspace (c : char) : bool :=
  ((9 <=? c) && (c <=? 13)) || ((28 <=? c) && (c <=? 32)) ||
  (c =? 133) || (c =? 160) || (c =? 5760) ||
  ((8192 <=? c) && (c <=? 8202)) || (c =? 8232) || (c =? 8233) ||
  (c =? 8239) || (c =? 8287) || (c =? 12288).

(** [s.split()]: the maximal runs of non-space characters, in order.
    [cur] is the run being read, reversed. *)
Fixpoint split_go (s : str) (cur : str) : list str :=
  match s with
  | [] => match cur with [] => [] | _ => [rev cur] end
  | c :: s' =>
      if isspace c
      then match cur with
           | [] => split_go s' []
           | _ => rev cur :: split_go s' []
           end
      else split_go s' (c :: cur)
  end.

Definition split (s : str) : list str := split_go s [].

(** The value of one hexadecimal digit. *)
Definition hex_value (c : char) : option N :=
  if (48 <=? c) && (c <=? 57) then Some (c - 48)
  else if (65 <=? c) && (c <=? 70) then Some (c - 55)
  else if (97 <=? c) && (c <=? 102) then Some (c - 87)
  else None.

Fixpoint int16_go (s : str) (acc : N) : py N :=
  match s with
  | [] => Ok acc
  | c :: s' =>
      match hex_value c with
      | Some d => int16_go s' (16 * acc + d)
      | None => Raise ValueError
      end
  end.

(** [int(s, 16)] on a string of hexadecimal digits.  The signs, prefixes,
    underscores and surrounding blanks that Python also accepts do not occur
    in the script's table; here they raise. *)
Definition int16 (s : str) : py N :=
  match s with
  | [] => Raise ValueError
  | _ => int16_go s 0
  end.

(** [chr(n)]. *)
Definition chr (n : N) : py char :=
  if n <=? 1114111 then Ok n else Raise ValueError.

(** [ord(c)] of a one-character string. *)
Definition ord (c : char) : N := c.

Definition hex_digit (d : N) : char :=
  if d <? 10 then 48 + d else 55 + d.

(** The hexadecimal digits of [p], most significant first, in front of [acc]. *)
Fixpoint hex_go (fuel : nat) (n : N) (acc : str) : str :=
  match fuel with
  | O => acc
  | S fuel' =>
      if n =? 0 then acc
      else hex_go fuel' (n / 16) (hex_digit (n mod 16) :: acc)
  end.

(** [f"{n:X}"]: upper-case hexadecimal, ["0"] for zero. *)
Definition hex_upper (n : N) : str :=
  match n with
  | 0 => [48]
  | _ => hex_go (N.to_nat (N.size n)) n []
  end.

(** [f"{n:04X}"]: at least four digits, padded with zeros on the left. *)
Definition format_04X (n : N) : str :=
  let h := hex_upper n in
  repeat 48 (4 - length h)%nat ++ h.

(** ** Constants *)

Definition ASCII_LETTERS : gset N :=
  list_to_set (lit "abcdefghijklmnopqrstuvwxyzABCDEFGHIJKLMNOPQRSTUVWXYZ").

(** The 52 ASCII Latin letters, by code point: A to Z and a to z. *)
Definition is_ascii_letter (c : char) : Prop :=
  (65 <= c <= 90) \/ (97 <= c <= 122).


(** ** The Unicode character database

    What the script asks of Python's [unicodedata] module, for one
    character. *)
Record unicodedata : Type := {
  (** the canonical name, [None] when the database has none; this is where
      [unicodedata.name(c, default)] falls back on [default] *)
  ucd_name : char -> option str;
  (** [unicodedata.decomposition(c)] *)
  ucd_decomposition : char -> str;
  (** [unicodedata.normalize('NFD', c)] *)
  ucd_nfd : char -> str;
  (** [unicodedata.category(c)] *)
  ucd_category : char -> str
}.

(** ** The [characters] table *)

Record row : Type := {
  col_id : N;
  col_character : char;
  col_name : str;
  col_decomposition : str;
  col_is_latin : N;
  col_has_ascii_base : N
}.

(** One report line: [(char, base_char, diacritics, detailed_decomp)].  The
    first three components are strings of the lengths the code gives them. *)
Record entry : Type := {
  e_char : str;
  e_base : str;
  e_diacritics : str;
  e_detailed : str
}.

(** [setup_temp_database]: a connection to an empty table. *)
Definition setup_temp_database : list row := [].

(** The rowid SQLite gives the next inserted row: one more than the largest
    one in the table, 1 in an empty table. *)
Definition next_id (conn : list row) : N :=
  1 + fold_right N.max 0 (map col_id conn).

(** [INSERT INTO characters (...) VALUES (?, ?, ?, ?, 0)]. *)
Definition insert_row (conn : list row) (c : char) (name dec : str) (latin : N) : list row :=
  conn ++ [{| col_id := next_id conn; col_character := c; col_name := name;
              col_decomposition := dec; col_is_latin := latin;
              col_has_ascii_base := 0 |}].

(** [UPDATE characters SET has_ascii_base = 1 WHERE id = ?]. *)
Definition set_has_ascii_base (conn : list row) (i : N) : list row :=
  map (fun r => if col_id r =? i
                then {| col_id := col_id r; col_character := col_character r;
                        col_name := col_name r;
                        col_decomposition := col_decomposition r;
                        col_is_latin := col_is_latin r;
                        col_has_ascii_base := 1 |}
                else r) conn.

(** [SELECT id, character, name, decomposition FROM characters WHERE is_latin = 1]. *)
Definition select_latin (conn : list row) : list row :=
  List.filter (fun r => col_is_latin r =? 1) conn.

Section Analyzer.

Variable U : unicodedata.

(** [unicodedata.name(c, default)]. *)
Definition name_or (c : char) (default : str) : str :=
  match ucd_name U c with
  | Some n => n
  | None => default
  end.

(** [unicodedata.category(c).startswith('M')]. *)
Definition is_mark (c : char) : bool := startswith (ucd_category U c) (lit "M").

(** The body of the loop of [store_data_in_db]. *)
Definition store_char (conn : list row) (c : char) : list row :=
  let name := name_or c (lit "") in
  let decomposition := ucd_decomposition U c in
  let is_latin := if contains (lit "LATIN") name then 1 else 0 in
  insert_row conn c name decomposition is_latin.

(** [store_data_in_db(characters, conn)]: the table afterwards and the
    returned count. *)
Definition store_data_in_db (characters : list char) (conn : list row) : list row * N :=
  (fold_left store_char characters conn, N.of_nat (length characters)).

(** One element of [detailed_decomp_parts]:
    [f"{formatted_char} ({char_name}, {code_point})"]. *)
Definition decomp_part (c : char) : str :=
  let char_name := name_or c (lit "UNKNOWN") in
  let code_point := lit "U+" ++ format_04X (ord c) in
  let formatted_char :=
    if is_mark c then lit "&nbsp;" ++ [c] ++ lit "&nbsp;" else [c] in
  formatted_char ++ lit " (" ++ char_name ++ lit ", " ++ code_point ++ lit ")".

(** The loop that fills [detailed_decomp_parts], then the join. *)
Definition detailed_decomp_parts (cs : str) : list str :=
  fold_left (fun parts c => parts ++ [decomp_part c]) cs [].

Definition detailed_decomp (cs : str) : str :=
  join (lit " &nbsp;&nbsp;+&nbsp;&nbsp; ") (detailed_decomp_parts cs).

(** The state the loop of [analyze_characters] works on: the table and the
    two result lists. *)
Record astate : Type := {
  a_conn : list row;
  one_diacritic_results : list entry;
  two_diacritics_results : list entry
}.

(** The body of the loop of [analyze_characters], for one fetched row. *)
Definition analyze_row (st : astate) (r : row) : py astate :=
  let char_id := col_id r in
  let chr_ := col_character r in
  let nfd_form := ucd_nfd U chr_ in
  do flags <-
    (if (1 <? length nfd_form)%nat then
       do base_char <- index nfd_form 0;
       if bool_decide (base_char ∈ ASCII_LETTERS) then
         let diacritic_count := sum_ones (List.filter is_mark (skipn 1 nfd_form)) in
         Ok (true, 0 <? diacritic_count)
       else Ok (false, false)
     else Ok (false, false));
  let '(base_is_ascii, has_diacritic) := flags in
  if base_is_ascii && has_diacritic then
    let conn' := set_has_ascii_base (a_conn st) char_id in
    do base_char <- index nfd_form 0;
    let diacritics :=
      join [] (map (fun c => [c]) (List.filter is_mark (skipn 1 nfd_form))) in
    let detailed := detailed_decomp nfd_form in
    let e := {| e_char := [chr_]; e_base := [base_char];
                e_diacritics := diacritics; e_detailed := detailed |} in
    if (length diacritics =? 1)%nat then
      Ok {| a_conn := conn';
            one_diacritic_results := one_diacritic_results st ++ [e];
            two_diacritics_results := two_diacritics_results st |}
    else
      Ok {| a_conn := conn';
            one_diacritic_results := one_diacritic_results st;
            two_diacritics_results := two_diacritics_results st ++ [e] |}
  else Ok st.

(** [analyze_characters(conn)]: the rows are fetched once, before the loop. *)
Definition analyze_characters (conn : list row) : py astate :=
  let latin_chars := select_latin conn in
  for_each analyze_row latin_chars
    {| a_conn := conn; one_diacritic_results := []; two_diacritics_results := [] |}.

(** The table of [process_other_latin_lgr_occurrences]. *)
Definition patterns : list str :=
  [ lit "U+0061 U+0331"; lit "U+0065 U+0331"; lit "U+0067 U+0303";
    lit "U+0069 U+0331"; lit "U+006D U+0327"; lit "U+006E U+0304";
    lit "U+006E U+0308"; lit "U+006F U+0327"; lit "U+006F U+0331";
    lit "U+0072 U+0303"; lit "U+1EB9 U+0300"; lit "U+1EB9 U+0301";
    lit "U+1ECD U+0300"; lit "U+1ECD U+0301" ].

(** [[chr(int(cp[2:], 16)) for cp in code_points]]. *)
Definition chars_of (code_points : list str) : py (list char) :=
  for_each (fun acc cp => do n <- int16 (skipn 2 cp); do c <- chr n; Ok (acc ++ [c]))
           code_points [].

(** The body of the loop of [process_other_latin_lgr_occurrences]. *)
Definition expand_pattern (results : list entry) (pattern : str) : py (list entry) :=
  let code_points := split pattern in
  do chars <- chars_of code_points;
  let combined_char := join [] (map (fun c => [c]) chars) in
  do base_char <- nth_py chars 0;
  do diacritic <- nth_py chars 1;
  let detailed := detailed_decomp chars in
  Ok (results ++ [{| e_char := combined_char; e_base := [base_char];
                     e_diacritics := [diacritic]; e_detailed := detailed |}]).

Definition process_other_latin_lgr_occurrences : py (list entry) :=
  for_each expand_pattern patterns [].

(** What [main] and [generate_pdf_report] compute from the results before any
    page is laid out: the three tables, the total printed by [main] and the
    counts put in the three table headings. *)
Record report : Type := {
  table1 : list entry;
  table2 : list entry;
  table3 : list entry;
  total_results : N;
  heading1_count : N;
  heading2_count : N;
  heading3_count : N
}.

(** [main], from the fetched [characters] on, with the part of
    [generate_pdf_report] that comes before the rendering.  [Raise] is the
    run ending in the [except] branch of [main]. *)
Definition main (characters : list char) : py report :=
  let conn := setup_temp_database in
  let '(conn1, _) := store_data_in_db characters conn in
  do st <- analyze_characters conn1;
  let one := one_diacritic_results st in
  let two := two_diacritics_results st in
  let total := N.of_nat (length one) + N.of_nat (length two) in
  do other_lgr_occurrences <- process_other_latin_lgr_occurrences;
  Ok {| table1 := one; table2 := two; table3 := other_lgr_occurrences;
        total_results := total;
        heading1_count := N.of_nat (length one);
        heading2_count := N.of_nat (length two);
        heading3_count := N.of_nat (length other_lgr_occurrences) |}.

(** *** The design's reading of the same computation

    The classifier, the structured breakdown and the stable partition as the
    design document words them (its sections 3, 4.2 and 4.4); the theorems
    below compare the code with them. *)

Inductive category : Type := OneDiacritic | TwoOrMoreDiacritics | OtherOccurrence.

Definition category_eqb (k k' : category) : bool :=
  match k, k' with
  | OneDiacritic, OneDiacritic => true
  | TwoOrMoreDiacritics, TwoOrMoreDiacritics => true
  | OtherOccurrence, OtherOccurrence => true
  | _, _ => false
  end.

(** One tuple of [detailedBreakdown]:
    [(scalarValue, canonicalName, codePointLabel, isCombiningMark)]. *)
Record breakdown_item : Type := {
  scalarValue : char;
  canonicalName : str;
  codePointLabel : str;
  isCombiningMark : bool
}.

Definition breakdown (cs : str) : list breakdown_item :=
  map (fun c => {| scalarValue := c;
                   canonicalName := name_or c (lit "UNKNOWN");
                   codePointLabel := lit "U+" ++ format_04X c;
                   isCombiningMark := is_mark c |}) cs.

(** How the report shows one tuple, and a whole breakdown. *)
Definition render_item (b : breakdown_item) : str :=
  (if isCombiningMark b
   then lit "&nbsp;" ++ [scalarValue b] ++ lit "&nbsp;"
   else [scalarValue b])
  ++ lit " (" ++ canonicalName b ++ lit ", " ++ codePointLabel b ++ lit ")".

Definition render (bs : list breakdown_item) : str :=
  join (lit " &nbsp;&nbsp;+&nbsp;&nbsp; ") (map render_item bs).

(** [marks] of step 5 of the classifier. *)
Definition marks (c : char) : str := List.filter is_mark (skipn 1 (ucd_nfd U c)).

(** [classify(character)], steps 1 to 8. *)
Definition classify (c : char) : option (category * entry) :=
  if negb (contains (lit "LATIN") (name_or c (lit "UNKNOWN"))) then None
  else
    let nfdForm := ucd_nfd U c in
    if (length nfdForm <=? 1)%nat then None
    else
      match nfdForm with
      | [] => None
      | base :: _ =>
          if negb (bool_decide (base ∈ ASCII_LETTERS)) then None
          else
            match marks c with
            | [] => None
            | _ :: _ =>
                Some (if (length (marks c) =? 1)%nat
                      then OneDiacritic else TwoOrMoreDiacritics,
                      {| e_char := [c]; e_base := [base];
                         e_diacritics := marks c;
                         e_detailed := render (breakdown nfdForm) |})
            end
      end.

(** The four gates as one test, and what a character that passes them
    classifies into. *)
Definition all_gatesb (c : char) : bool :=
  contains (lit "LATIN") (name_or c (lit ""))
  && (1 <? length (ucd_nfd U c))%nat
  && match ucd_nfd U c with
     | b :: _ => bool_decide (b ∈ ASCII_LETTERS)
     | [] => false
     end
  && existsb is_mark (skipn 1 (ucd_nfd U c)).

Definition category_of (c : char) : category :=
  if (length (marks c) =? 1)%nat then OneDiacritic else TwoOrMoreDiacritics.

Definition result_of (c : char) : entry :=
  {| e_char := [c]; e_base := firstn 1 (ucd_nfd U c);
     e_diacritics := marks c;
     e_detailed := render (breakdown (ucd_nfd U c)) |}.

(** The results of category [k] for an input sequence: one per element that
    classifies into [k], in input order. *)
Fixpoint bucket (k : category) (cs : list char) : list entry :=
  match cs with
  | [] => []
  | c :: cs' =>
      match classify c with
      | Some (k', e) => if category_eqb k k' then e :: bucket k cs' else bucket k cs'
      | None => bucket k cs'
      end
  end.

(** The code points of the fixed-pattern table, entry by entry. *)
Definition table_entries : list (char * char) :=
  [ (0x61, 0x331); (0x65, 0x331); (0x67, 0x303); (0x69, 0x331);
    (0x6D, 0x327); (0x6E, 0x304); (0x6E, 0x308); (0x6F, 0x327);
    (0x6F, 0x331); (0x72, 0x303); (0x1EB9, 0x300); (0x1EB9, 0x301);
    (0x1ECD, 0x300); (0x1ECD, 0x301) ].

(** The result the expander is to give for one table entry. *)
Definition expand_entry (p : char * char) : entry :=
  {| e_char := [fst p; snd p]; e_base := [fst p]; e_diacritics := [snd p];
     e_detailed := render (breakdown [fst p; snd p]) |}.

(** The four gates of the classifier, as propositions. *)
Definition latin_gate (c : char) : Prop :=
  exists n pre post, ucd_name U c = Some n /\ n = pre ++ lit "LATIN" ++ post.

Definition decomposes_gate (c : char) : Prop := (1 < length (ucd_nfd U c))%nat.

Definition ascii_base_gate (c : char) : Prop :=
  exists b, nth_error (ucd_nfd U c) 0 = Some b /\ b ∈ ASCII_LETTERS.

Definition mark_gate (c : char) : Prop :=
  exists m rest, In m (skipn 1 (ucd_nfd U c)) /\ ucd_category U m = lit "M" ++ rest.

Definition all_gates (c : char) : Prop :=
  latin_gate c /\ decomposes_gate c /\ ascii_base_gate c /\ mark_gate c.

(** What [store_data_in_db] writes for one character. *)
Definition stored_as (c : char) (r : row) : Prop :=
  col_character r = c /\
  col_name r = match ucd_name U c with Some n => n | None => lit "" end /\
  (ucd_name U c = None -> col_is_latin r = 0).

(** The number of results for the character [c] in [es]. *)
Definition results_for (c : char) (es : list entry) : nat :=
  length (List.filter (fun e => bool_decide (e_char e = [c])) es).

(** A result for the character [c] is in the list [es]. *)
Definition has_result (c : char) (es : list entry) : Prop :=
  exists e, In e es /\ e_char e = [c].

End Analyzer.

(** ** A fragment of the Unicode character database

    The entries of the Unicode Character Database for the code points used in
    the examples below; every other code point is left unassigned (no name,
    category Cn, its own normal form). *)
Module UCD.

Definition name (c : char) : option str :=
  match c with
  | 0x61 => Some (lit "LATIN SMALL LETTER A")
  | 0x62 => Some (lit "LATIN SMALL LETTER B")
  | 0x65 => Some (lit "LATIN SMALL LETTER E")
  | 0xE1 => Some (lit "LATIN SMALL LETTER A WITH ACUTE")
  | 0xF8 => Some (lit "LATIN SMALL LETTER O WITH STROKE")
  | 0x1E1 => Some (lit "LATIN SMALL LETTER A WITH DOT ABOVE AND MACRON")
  | 0x1FF => Some (lit "LATIN SMALL LETTER O WITH STROKE AND ACUTE")
  | 0x300 => Some (lit "COMBINING GRAVE ACCENT")
  | 0x301 => Some (lit "COMBINING ACUTE ACCENT")
  | 0x304 => Some (lit "COMBINING MACRON")
  | 0x307 => Some (lit "COMBINING DOT ABOVE")
  | 0x323 => Some (lit "COMBINING DOT BELOW")
  | 0x331 => Some (lit "COMBINING MACRON BELOW")
  | 0x1EB9 => Some (lit "LATIN SMALL LETTER E WITH DOT BELOW")
  | 0x4E2D => Some (lit "CJK UNIFIED IDEOGRAPH-4E2D")
  | _ => None
  end.

Definition nfd (c : char) : str :=
  match c with
  | 0xE1 => [0x61; 0x301]
  | 0x1E1 => [0x61; 0x307; 0x304]
  | 0x1FF => [0xF8; 0x301]
  | 0x1EB9 => [0x65; 0x323]
  | _ => [c]
  end.

Definition decomposition (c : char) : str :=
  match c with
  | 0xE1 => lit "0061 0301"
  | 0x1E1 => lit "0227 0304"
  | 0x1FF => lit "00F8 0301"
  | 0x1EB9 => lit "0065 0323"
  | _ => lit ""
  end.

Definition category (c : char) : str :=
  match c with
  | 0x61 | 0x62 | 0x65 | 0xE1 | 0xF8 | 0x1E1 | 0x1FF | 0x1EB9 => lit "Ll"
  | 0x300 | 0x301 | 0x304 | 0x307 | 0x323 | 0x331 => lit "Mn"
  | 0x4E2D => lit "Lo"
  | 0x80 => lit "Cc"
  | _ => lit "Cn"
  end.

Definition db : unicodedata :=
  {| ucd_name := name; ucd_decomposition := decomposition;
     ucd_nfd := nfd; ucd_category := category |}.

End UCD.

(** A database in which U+0100 decomposes into "a" and the same mark twice;
    no character of Unicode does, the classifier is tried on it all the same. *)
Definition repeated_mark_db : unicodedata :=
  {| ucd_name := fun c => if c =? 0x100 then Some (lit "LATIN TEST LETTER") else None;
     ucd_decomposition := fun _ => lit "";
     ucd_nfd := fun c => if c =? 0x100 then [0x61; 0x301; 0x301] else [c];
     ucd_category := fun c => if c =? 0x301 then lit "Mn" else lit "Ll" |}.

(** ** The rest of the script: extraction, table updates, report labels *)

(** [s.lstrip()] and [s.strip()]. *)
Fixpoint lstrip (s : str) : str :=
  match s with
  | [] => []
  | c :: s' => if isspace c then lstrip s' else s
  end.

Definition strip (s : str) : str := rev (lstrip (rev (lstrip s))).

(** The loop over the characters of one cell in [fetch_data_from_url]; [raw]
    is what [cell.get_text()] gave. *)
Definition cell_characters (characters : list char) (raw : str) : list char :=
  let text := strip raw in
  if (length text <=? 2)%nat
  then fold_left (fun acc ch => if 127 <? ord ch then acc ++ [ch] else acc)
                 text characters
  else characters.

(** What one cell contributes: the non-ASCII characters of its stripped
    text when that text has at most two characters. *)
Definition cell_candidates (raw : str) : list char :=
  if (length (strip raw) <=? 2)%nat
  then List.filter (fun ch => 127 <? ch) (strip raw)
  else [].

(** The loop over the cells of one row, under [if cells:]. *)
Definition row_characters (characters : list char) (cells : list str) : list char :=
  match cells with
  | [] => characters
  | _ :: _ => fold_left cell_characters cells characters
  end.

(** The loops over the rows of one table and over the tables.  A document is
    given as what [find_all] returns at each level: for every table its rows,
    for every row the texts of its cells. *)
Definition table_characters (characters : list char) (rows : list (list str)) : list char :=
  fold_left row_characters rows characters.

Definition extract_characters (tables : list (list (list str))) : list char :=
  fold_left table_characters tables [].

(** One turn of the loop that removes duplicates: the state is
    [(unique_chars, seen)]. *)
Definition unique_step (st : list char * gset N) (ch : char) : list char * gset N :=
  if bool_decide (ch ∉ snd st)
  then (fst st ++ [ch], {[ch]} ∪ snd st)
  else st.

Definition unique_chars (characters : list char) : list char :=
  fst (fold_left unique_step characters ([], ∅)).

(** The same loop as a recursion on the input: what it appends to
    [unique_chars] when [seen] holds the characters met so far. *)
Fixpoint unique_from (seen : gset N) (characters : list char) : list char :=
  match characters with
  | [] => []
  | ch :: rest =>
      if bool_decide (ch ∉ seen)
      then ch :: unique_from ({[ch]} ∪ seen) rest
      else unique_from seen rest
  end.

(** [fetch_data_from_url], from the parsed tables on. *)
Definition fetch_data_from_url (tables : list (list (list str))) : list char :=
  unique_chars (extract_characters tables).

(** A row after [UPDATE characters SET has_ascii_base = 1]. *)
Definition with_ascii_base (r : row) : row :=
  {| col_id := col_id r; col_character := col_character r;
     col_name := col_name r; col_decomposition := col_decomposition r;
     col_is_latin := col_is_latin r; col_has_ascii_base := 1 |}.

(** [f"U+{ord(c):04X}"], the label the script prints for a code point. *)
Definition code_point_label (c : char) : str := lit "U+" ++ format_04X (ord c).

(** The code point shown under the character in the first two tables of the
    report: [f"U+{ord(char):04X}"], where [ord] takes a string of length one
    ([None] stands for its TypeError). *)
Definition char_code_point (char : str) : option str :=
  match char with
  | [c] => Some (code_point_label c)
  | _ => None
  end.

(** The code points shown under the sequence in the third table:
    [" ".join([f"U+{ord(c):04X}" for c in char])]. *)
Definition combined_code_point_str (char : str) : str :=
  join (lit " ") (map code_point_label char).

(** An upper-case hexadecimal digit. *)
Definition is_upper_hex (c : char) : Prop :=
  (48 <= c <= 57) \/ (65 <= c <= 70).

Section Tables.

Variable U : unicodedata.

(** The three tests [analyze_characters] makes on the NFD form of a fetched
    row's character. *)
Definition decomposition_gatesb (c : char) : bool :=
  (1 <? length (ucd_nfd U c))%nat
  && match ucd_nfd U c with
     | b :: _ => bool_decide (b ∈ ASCII_LETTERS)
     | [] => false
     end
  && existsb (is_mark U) (skipn 1 (ucd_nfd U c)).

(** Among [cs], the characters that pass these tests and have one mark
    ([one] true) or more than one ([one] false). *)
Definition selected_of (one : bool) (cs : list char) : list char :=
  List.filter (fun c => decomposition_gatesb c
                        && Bool.eqb one (length (marks U c) =? 1)%nat) cs.

(** The same among the characters of the rows a SELECT for Latin rows finds. *)
Definition selected (one : bool) (conn : list row) : list char :=
  selected_of one (map col_character (select_latin conn)).

(** The update the loop makes for one fetched row. *)
Definition flag_row (conn : list row) (r : row) : list row :=
  if decomposition_gatesb (col_character r)
  then set_has_ascii_base conn (col_id r)
  else conn.

(** The row [r] is updated by the analysis of [conn]: a Latin row of [conn]
    with the same id passes the tests. *)
Definition flagged (conn : list row) (r : row) : bool :=
  existsb (fun r' => (col_id r =? col_id r')
                     && decomposition_gatesb (col_character r'))
          (select_latin conn).

(** The script from the parsed document to the report. *)
Definition run (tables : list (list (list str))) : py report :=
  main U (fetch_data_from_url tables).

End Tables.

(** ** Python string and list operations *)

Lemma startswith_spec (s p : str) :
  startswith s p = true <-> exists rest, s = p ++ rest.
Proof.
  revert s. induction p as [|a p IH]; intros s; simpl.
  - split; [intros _; exists s; reflexivity | intros _; destruct s; reflexivity].
  - destruct s as [|b s].
    + split; [discriminate | intros [rest H]; discriminate].
    + simpl. rewrite andb_true_iff, N.eqb_eq, IH. split.
      * intros [-> [rest ->]]. exists rest. reflexivity.
      * intros [rest H]. injection H as -> ->. split; [reflexivity | eauto].
Qed.

Lemma contains_spec (sub s : str) :
  contains sub s = true <-> exists pre post, s = pre ++ sub ++ post.
Proof.
  induction s as [|b s IH].
  - change (contains sub []) with (startswith [] sub || false).
    rewrite orb_false_r, startswith_spec. split.
    + intros [rest H]. exists [], rest. exact H.
    + intros [pre [post H]]. destruct pre; [exists post; exact H | discriminate].
  - change (contains sub (b :: s))
      with (startswith (b :: s) sub || contains sub s).
    rewrite orb_true_iff, startswith_spec, IH. split.
    + intros [[rest H] | [pre [post H]]].
      * exists [], rest. exact H.
      * exists (b :: pre), post. simpl. rewrite H. reflexivity.
    + intros [pre [post H]]. destruct pre as [|x pre].
      * left. exists post. exact H.
      * right. injection H as _ H. exists pre, post. exact H.
Qed.

Lemma join_chars (cs : str) : join [] (map (fun c => [c]) cs) = cs.
Proof.
  induction cs as [|c cs IH]; [reflexivity|].
  destruct cs as [|c' cs]; [reflexivity|].
  change (join [] (map (fun c => [c]) (c :: c' :: cs)))
    with ([c] ++ [] ++ join [] (map (fun c => [c]) (c' :: cs))).
  rewrite IH. reflexivity.
Qed.

Lemma sum_ones_length {A : Type} (xs : list A) : sum_ones xs = N.of_nat (length xs).
Proof.
  unfold sum_ones.
  assert (H : forall a, fold_left N.add (map (fun _ : A => 1) xs) a
                        = a + N.of_nat (length xs)).
  { induction xs as [|x xs IH]; intros a; simpl fold_left.
    - simpl. lia.
    - rewrite IH. simpl length. lia. }
  rewrite H. lia.
Qed.

Lemma snoc_loop_map {A B : Type} (f : A -> B) (xs : list A) (acc : list B) :
  fold_left (fun parts x => parts ++ [f x]) xs acc = acc ++ map f xs.
Proof.
  revert acc. induction xs as [|x xs IH]; intros acc; simpl.
  - rewrite app_nil_r. reflexivity.
  - rewrite IH, <- app_assoc. reflexivity.
Qed.

(** ** The set of ASCII letters *)

Lemma in_N_range (lo n : nat) (c : N) :
  N.of_nat lo <= c < N.of_nat (lo + n) -> In c (map N.of_nat (seq lo n)).
Proof.
  intros H. apply in_map_iff. exists (N.to_nat c). split; [lia|].
  apply in_seq. lia.
Qed.

Ltac pick_disjunct := repeat first [left; reflexivity | right].

Lemma ASCII_LETTERS_spec (c : char) : c ∈ ASCII_LETTERS <-> is_ascii_letter c.
Proof.
  unfold ASCII_LETTERS, is_ascii_letter.
  rewrite elem_of_list_to_set, list_elem_of_In. split.
  - intros H. vm_compute in H.
    repeat (destruct H as [H | H]; [subst c; lia|]).
    destruct H.
  - intros [H | H].
    + assert (Hin : In c (map N.of_nat (seq 65 26))) by (apply in_N_range; lia).
      vm_compute in Hin. vm_compute.
      repeat (destruct Hin as [Hin | Hin]; [subst c; pick_disjunct|]).
      destruct Hin.
    + assert (Hin : In c (map N.of_nat (seq 97 26))) by (apply in_N_range; lia).
      vm_compute in Hin. vm_compute.
      repeat (destruct Hin as [Hin | Hin]; [subst c; pick_disjunct|]).
      destruct Hin.
Qed.

(** ** The analyzer *)

Section AnalyzerFacts.

Variable U : unicodedata.

Lemma is_mark_spec (c : char) :
  is_mark U c = true <-> exists rest, ucd_category U c = lit "M" ++ rest.
Proof. unfold is_mark. apply startswith_spec. Qed.

(** The two defaults of the name lookup give the same script test. *)
Lemma latin_default (c : char) :
  contains (lit "LATIN") (name_or U c (lit "UNKNOWN"))
  = contains (lit "LATIN") (name_or U c (lit "")).
Proof. unfold name_or. destruct (ucd_name U c); reflexivity. Qed.

Lemma latin_gate_spec (c : char) :
  contains (lit "LATIN") (name_or U c (lit "")) = true <-> latin_gate U c.
Proof.
  unfold latin_gate, name_or. destruct (ucd_name U c) as [n|].
  - rewrite contains_spec. split.
    + intros [pre [post H]]. exists n, pre, post. split; [reflexivity | exact H].
    + intros [n' [pre [post [H1 H2]]]]. injection H1 as <-. eauto.
  - split; [discriminate | intros [n [pre [post [H _]]]]; discriminate].
Qed.

Lemma detailed_decomp_render (cs : str) :
  detailed_decomp U cs = render (breakdown U cs).
Proof.
  unfold detailed_decomp, detailed_decomp_parts, render, breakdown.
  rewrite snoc_loop_map, map_map. reflexivity.
Qed.

Lemma bucket_app (k : category) (xs ys : list char) :
  bucket U k (xs ++ ys) = bucket U k xs ++ bucket U k ys.
Proof.
  induction xs as [|x xs IH]; [reflexivity|].
  simpl. destruct (classify U x) as [[k' e]|]; [|exact IH].
  destruct (category_eqb k k'); [simpl; f_equal|]; exact IH.
Qed.

(** Only characters that pass the script test classify. *)
Lemma classify_latin (c : char) :
  contains (lit "LATIN") (name_or U c (lit "")) = false -> classify U c = None.
Proof. intros H. unfold classify. rewrite latin_default, H. reflexivity. Qed.

Lemma bucket_filter_latin (k : category) (cs : list char) :
  bucket U k (List.filter (fun c => contains (lit "LATIN") (name_or U c (lit ""))) cs)
  = bucket U k cs.
Proof.
  induction cs as [|c cs IH]; [reflexivity|].
  simpl. destruct (contains _ _) eqn:E.
  - simpl. rewrite IH. reflexivity.
  - rewrite (classify_latin c E). exact IH.
Qed.

(** The rows a SELECT for Latin characters finds after [store_data_in_db]
    carry, in order, the Latin characters of the input. *)
Lemma store_select_latin (characters : list char) (conn : list row) :
  map col_character (select_latin (fold_left (store_char U) characters conn))
  = map col_character (select_latin conn)
    ++ List.filter (fun c => contains (lit "LATIN") (name_or U c (lit ""))) characters.
Proof.
  revert conn. induction characters as [|c cs IH]; intros conn; simpl.
  - rewrite app_nil_r. reflexivity.
  - rewrite IH. unfold store_char, insert_row, select_latin.
    rewrite List.filter_app, map_app, <- app_assoc. f_equal.
    simpl. destruct (contains _ _); reflexivity.
Qed.

Lemma select_latin_is_latin (characters : list char) (conn : list row) :
  Forall (fun r => contains (lit "LATIN") (name_or U (col_character r) (lit "")) = true)
         (select_latin conn) ->
  Forall (fun r => contains (lit "LATIN") (name_or U (col_character r) (lit "")) = true)
         (select_latin (fold_left (store_char U) characters conn)).
Proof.
  revert conn. induction characters as [|c cs IH]; intros conn H; simpl; [exact H|].
  apply IH. unfold store_char, insert_row, select_latin.
  rewrite List.filter_app. apply Forall_app. split; [exact H|].
  simpl. destruct (contains _ _) eqn:E; simpl; [|constructor].
  constructor; [exact E | constructor].
Qed.

(** One turn of the loop of [analyze_characters] on a Latin row: it never
    raises, and appends what the classifier gives for the row's character. *)
Lemma analyze_row_spec (st : astate) (r : row) :
  contains (lit "LATIN") (name_or U (col_character r) (lit "")) = true ->
  exists conn',
    analyze_row U st r
    = Ok {| a_conn := conn';
            one_diacritic_results :=
              one_diacritic_results st ++ bucket U OneDiacritic [col_character r];
            two_diacritics_results :=
              two_diacritics_results st ++ bucket U TwoOrMoreDiacritics [col_character r] |}.
Proof.
  intros HL. destruct st as [conn one two]. destruct r as [i c nm dec lat hab].
  unfold analyze_row, bucket, classify, marks. simpl col_character in *.
  simpl col_id. simpl a_conn. simpl one_diacritic_results. simpl two_diacritics_results.
  rewrite latin_default, HL. simpl negb. cbv iota.
  destruct (ucd_nfd U c) as [|b [|m tl]] eqn:E.
  - exists conn. simpl. rewrite !app_nil_r. reflexivity.
  - exists conn. simpl. rewrite !app_nil_r. reflexivity.
  - change ((1 <? length (b :: m :: tl))%nat) with true.
    change ((length (b :: m :: tl) <=? 1)%nat) with false.
    change (index (b :: m :: tl) 0) with (Ok b).
    change (skipn 1 (b :: m :: tl)) with (m :: tl).
    cbv iota. unfold bind at 1 2.
    destruct (bool_decide (b ∈ ASCII_LETTERS)) eqn:EB.
    2:{ exists conn. simpl. rewrite !app_nil_r. reflexivity. }
    rewrite sum_ones_length, join_chars, detailed_decomp_render.
    destruct (List.filter (is_mark U) (m :: tl)) as [|x xs] eqn:EM.
    + exists conn. simpl. rewrite !app_nil_r. reflexivity.
    + assert (H0 : (0 <? N.of_nat (length (x :: xs))) = true)
        by (apply N.ltb_lt; simpl length; lia).
      rewrite H0. simpl andb. cbv iota. simpl negb. cbv iota.
      exists (set_has_ascii_base conn i).
      destruct ((length (x :: xs) =? 1)%nat) eqn:EL; simpl; rewrite ?app_nil_r; reflexivity.
Qed.

(** The whole loop, on rows that are all Latin. *)
Lemma analyze_rows_spec (rows : list row) (st : astate) :
  Forall (fun r => contains (lit "LATIN") (name_or U (col_character r) (lit "")) = true)
         rows ->
  exists conn',
    for_each (analyze_row U) rows st
    = Ok {| a_conn := conn';
            one_diacritic_results :=
              one_diacritic_results st
              ++ bucket U OneDiacritic (map col_character rows);
            two_diacritics_results :=
              two_diacritics_results st
              ++ bucket U TwoOrMoreDiacritics (map col_character rows) |}.
Proof.
  revert st. induction rows as [|r rows IH]; intros st H.
  - exists (a_conn st). destruct st. simpl. rewrite !app_nil_r. reflexivity.
  - inversion H as [|? ? Hr Hrows]; subst.
    destruct (analyze_row_spec st r Hr) as [conn1 E1].
    simpl for_each. rewrite E1. simpl bind.
    match goal with
    | |- context [for_each _ rows ?s] => destruct (IH s Hrows) as [conn2 E2]
    end.
    exists conn2. rewrite E2.
    simpl one_diacritic_results. simpl two_diacritics_results.
    change (map col_character (r :: rows))
      with ([col_character r] ++ map col_character rows).
    rewrite !bucket_app, <- !app_assoc. reflexivity.
Qed.

(** [analyze_characters] after [store_data_in_db] on a fresh table. *)
Lemma analyze_stored_spec (characters : list char) :
  exists conn',
    analyze_characters U (fst (store_data_in_db U characters setup_temp_database))
    = Ok {| a_conn := conn';
            one_diacritic_results := bucket U OneDiacritic characters;
            two_diacritics_results := bucket U TwoOrMoreDiacritics characters |}.
Proof.
  unfold analyze_characters, store_data_in_db, setup_temp_database. simpl fst.
  destruct (analyze_rows_spec
              (select_latin (fold_left (store_char U) characters []))
              {| a_conn := fold_left (store_char U) characters [];
                 one_diacritic_results := []; two_diacritics_results := [] |})
    as [conn' E].
  { apply select_latin_is_latin. constructor. }
  exists conn'. rewrite E. simpl one_diacritic_results. simpl two_diacritics_results.
  rewrite store_select_latin. simpl app. rewrite !bucket_filter_latin. reflexivity.
Qed.

(** The fixed-pattern expander: the table parses, and every entry gives its
    result, whatever the database says of its code points. *)
Lemma expander_spec :
  process_other_latin_lgr_occurrences U = Ok (map (expand_entry U) table_entries).
Proof.
  unfold process_other_latin_lgr_occurrences, patterns, table_entries.
  unfold for_each, expand_pattern.
  repeat (match goal with
          | |- context [split ?p] =>
              let v := eval vm_compute in (split p) in
              change (split p) with v
          end).
  repeat (match goal with
          | |- context [chars_of ?p] =>
              let v := eval vm_compute in (chars_of p) in
              change (chars_of p) with v
          end).
  unfold bind, nth_py, nth_error, expand_entry, map, fst, snd, app.
  rewrite !detailed_decomp_render. reflexivity.
Qed.

(** [main] never raises, and its report is the design's aggregate. *)
Lemma main_spec (characters : list char) :
  main U characters
  = Ok {| table1 := bucket U OneDiacritic characters;
          table2 := bucket U TwoOrMoreDiacritics characters;
          table3 := map (expand_entry U) table_entries;
          total_results :=
            N.of_nat (length (bucket U OneDiacritic characters))
            + N.of_nat (length (bucket U TwoOrMoreDiacritics characters));
          heading1_count := N.of_nat (length (bucket U OneDiacritic characters));
          heading2_count := N.of_nat (length (bucket U TwoOrMoreDiacritics characters));
          heading3_count := 14 |}.
Proof.
  unfold main. destruct (analyze_stored_spec characters) as [conn' E].
  destruct (store_data_in_db U characters setup_temp_database) as [conn1 n] eqn:ES.
  simpl fst in E. rewrite E. unfold bind at 1. cbv beta iota.
  rewrite expander_spec. reflexivity.
Qed.

(** *** The classifier, gate by gate *)

Lemma existsb_filter {A : Type} (f : A -> bool) (l : list A) :
  existsb f l = match List.filter f l with [] => false | _ :: _ => true end.
Proof.
  induction l as [|x l IH]; [reflexivity|].
  simpl. destruct (f x); [reflexivity | exact IH].
Qed.

Lemma classify_all_gatesb (c : char) :
  classify U c
  = if all_gatesb U c then Some (category_of U c, result_of U c) else None.
Proof.
  unfold classify, all_gatesb, category_of, result_of, marks.
  rewrite latin_default.
  destruct (contains (lit "LATIN") (name_or U c (lit ""))); [|reflexivity].
  destruct (ucd_nfd U c) as [|b [|m tl]]; [reflexivity | reflexivity |].
  change ((length (b :: m :: tl) <=? 1)%nat) with false.
  change ((1 <? length (b :: m :: tl))%nat) with true.
  change (skipn 1 (b :: m :: tl)) with (m :: tl).
  rewrite existsb_filter.
  generalize (List.filter (is_mark U) (m :: tl)). intros ms.
  destruct (bool_decide (b ∈ ASCII_LETTERS)); [|reflexivity].
  destruct ms; reflexivity.
Qed.

Lemma all_gatesb_spec (c : char) : all_gatesb U c = true <-> all_gates U c.
Proof.
  unfold all_gatesb, all_gates, decomposes_gate, ascii_base_gate, mark_gate.
  rewrite !andb_true_iff, latin_gate_spec, Nat.ltb_lt, existsb_exists.
  split.
  - intros [[[HL HN] HB] [m [Hm1 Hm2]]]. repeat split; [exact HL | exact HN | |].
    + destruct (ucd_nfd U c) as [|b tl]; [discriminate|].
      exists b. split; [reflexivity|]. apply bool_decide_eq_true in HB. exact HB.
    + apply is_mark_spec in Hm2. destruct Hm2 as [rest Hr]. exists m, rest. auto.
  - intros [HL [HN [[b [Hb1 Hb2]] [m [rest [Hm1 Hm2]]]]]]. repeat split; [exact HL | exact HN | |].
    + destruct (ucd_nfd U c) as [|b' tl]; [discriminate|].
      injection Hb1 as ->. apply bool_decide_eq_true. exact Hb2.
    + exists m. split; [exact Hm1|]. apply is_mark_spec. eauto.
Qed.

(** A bucket is the image of the input characters that pass the gates and
    fall in its category, in input order. *)
Lemma bucket_filter_map (k : category) (cs : list char) :
  bucket U k cs
  = map (result_of U)
        (List.filter (fun c => all_gatesb U c && category_eqb k (category_of U c)) cs).
Proof.
  induction cs as [|c cs IH]; [reflexivity|].
  simpl. rewrite classify_all_gatesb.
  destruct (all_gatesb U c); simpl; [|exact IH].
  destruct (category_eqb k (category_of U c)); simpl; [f_equal|]; exact IH.
Qed.

Lemma in_bucket (k : category) (cs : list char) (e : entry) :
  In e (bucket U k cs)
  <-> exists c, In c cs /\ all_gatesb U c = true /\ category_of U c = k /\ e = result_of U c.
Proof.
  rewrite bucket_filter_map, in_map_iff. split.
  - intros [c [He Hc]]. apply filter_In in Hc. destruct Hc as [Hin Hc].
    apply andb_true_iff in Hc. destruct Hc as [Hg Hk].
    exists c. repeat split; [exact Hin | exact Hg | | symmetry; exact He].
    destruct k, (category_of U c); simpl in Hk; congruence.
  - intros [c [Hin [Hg [Hk He]]]]. exists c. split; [symmetry; exact He|].
    apply filter_In. split; [exact Hin|]. rewrite Hg, Hk. destruct k; reflexivity.
Qed.

Lemma category_of_cases (c : char) :
  category_of U c = OneDiacritic \/ category_of U c = TwoOrMoreDiacritics.
Proof. unfold category_of. destruct (_ =? _)%nat; auto. Qed.

(** A result for [c] in one of the two live buckets: [c] is in the input and
    passes the gates. *)
Lemma has_result_live (c : char) (cs : list char) :
  has_result c (bucket U OneDiacritic cs ++ bucket U TwoOrMoreDiacritics cs)
  <-> In c cs /\ all_gatesb U c = true.
Proof.
  unfold has_result. split.
  - intros [e [Hin Hc]]. apply in_app_iff in Hin.
    destruct Hin as [Hin | Hin]; apply in_bucket in Hin;
      destruct Hin as [c' [H1 [H2 [_ ->]]]]; simpl in Hc;
      injection Hc as ->; auto.
  - intros [Hin Hg]. exists (result_of U c). split; [|reflexivity].
    apply in_app_iff.
    destruct (category_of_cases c) as [Hk | Hk]; [left | right];
      apply in_bucket; exists c; auto.
Qed.

Lemma live_total (cs : list char) :
  (length (bucket U OneDiacritic cs) + length (bucket U TwoOrMoreDiacritics cs))%nat
  = length (List.filter (all_gatesb U) cs).
Proof.
  induction cs as [|c cs IH]; [reflexivity|].
  simpl. rewrite classify_all_gatesb.
  destruct (all_gatesb U c); [|exact IH].
  destruct (category_of_cases c) as [-> | ->]; simpl; lia.
Qed.

End AnalyzerFacts.

(** ** Properties of the analyzer *)

Section Claims.

Variable U : unicodedata.

Lemma gates_base (c : char) :
  all_gatesb U c = true ->
  exists b tl, ucd_nfd U c = b :: tl /\ b ∈ ASCII_LETTERS.
Proof.
  unfold all_gatesb. rewrite !andb_true_iff. intros [[[_ _] HB] _].
  destruct (ucd_nfd U c) as [|b tl]; [discriminate|].
  exists b, tl. split; [reflexivity|]. apply bool_decide_eq_true in HB. exact HB.
Qed.

Lemma gates_marks (c : char) :
  all_gatesb U c = true -> (1 <= length (marks U c))%nat.
Proof.
  unfold all_gatesb, marks. rewrite !andb_true_iff, existsb_filter.
  intros [_ H]. destruct (List.filter _ _); [discriminate | simpl; lia].
Qed.

(** C1, amended.  Every result of the two live buckets has one of the 52 ASCII
    Latin letters as its base character.  The results of the fixed-pattern
    expander take the first code point of their table entry as it is: an ASCII
    letter for the first ten entries, U+1EB9 or U+1ECD for the last four. *)
Theorem base_character_of_results (characters : list char) :
  exists rep,
    main U characters = Ok rep /\
    (forall e, In e (table1 rep ++ table2 rep) ->
       exists b, e_base e = [b] /\ b ∈ ASCII_LETTERS /\ is_ascii_letter b) /\
    map e_base (table3 rep) = map (fun p => [fst p]) table_entries /\
    (forall e, In e (firstn 10 (table3 rep)) ->
       exists b, e_base e = [b] /\ is_ascii_letter b) /\
    map e_base (skipn 10 (table3 rep)) = [[0x1EB9]; [0x1EB9]; [0x1ECD]; [0x1ECD]].
Proof.
  eexists. split; [apply main_spec|]. simpl table1. simpl table2. simpl table3.
  split; [|split; [|split]].
  - intros e He. apply in_app_iff in He.
    assert (H : exists c, all_gatesb U c = true /\ e = result_of U c).
    { destruct He as [He | He]; apply in_bucket in He;
        destruct He as [c [_ [Hg [_ ->]]]]; eauto. }
    destruct H as [c [Hg ->]]. destruct (gates_base c Hg) as [b [tl [E Hb]]].
    exists b. unfold result_of. simpl e_base. rewrite E.
    split; [reflexivity|]. split; [exact Hb | apply ASCII_LETTERS_spec; exact Hb].
  - reflexivity.
  - intros e He. unfold table_entries in He. simpl in He.
    repeat (destruct He as [<- | He];
            [eexists; split; [reflexivity | unfold is_ascii_letter; simpl; lia]|]).
    destruct He.
  - reflexivity.
Qed.

(** C3.  The classifier gives a result for a character of the input exactly
    when the four gates pass: the name contains "LATIN", the NFD form is longer
    than one, its first scalar value is an ASCII letter, and some scalar
    value of the tail has a category starting with "M".  A character failing a
    gate has no result in either live bucket, and the run does not raise. *)
Theorem classifier_result_iff_gates (characters : list char) :
  exists rep,
    main U characters = Ok rep /\
    forall c,
      has_result c (table1 rep ++ table2 rep)
      <-> In c characters /\ all_gates U c.
Proof.
  eexists. split; [apply main_spec|]. intros c. simpl table1. simpl table2.
  rewrite has_result_live, all_gatesb_spec. reflexivity.
Qed.

(** C8.  On the empty input both live buckets are empty and their counts are
    0, while the fixed-pattern bucket still holds its 14 results. *)
Theorem empty_input_counts :
  exists rep,
    main U [] = Ok rep /\
    table1 rep = [] /\ table2 rep = [] /\
    heading1_count rep = 0 /\ heading2_count rep = 0 /\
    total_results rep = 0 /\
    length (table3 rep) = 14%nat /\ heading3_count rep = 14.
Proof.
  eexists. split; [apply main_spec|]. repeat split.
Qed.

(** C9.  The total that is reported is the length of the one-diacritic bucket
    plus the length of the two-or-more bucket: the number of input characters
    that pass the gates.  The count of the fixed-pattern bucket is reported on
    its own and is no part of the total. *)
Theorem total_is_sum_of_live_buckets (characters : list char) :
  exists rep,
    main U characters = Ok rep /\
    total_results rep
    = N.of_nat (length (table1 rep)) + N.of_nat (length (table2 rep)) /\
    total_results rep = N.of_nat (length (List.filter (all_gatesb U) characters)) /\
    heading1_count rep = N.of_nat (length (table1 rep)) /\
    heading2_count rep = N.of_nat (length (table2 rep)) /\
    heading3_count rep = N.of_nat (length (table3 rep)) /\
    heading3_count rep = 14.
Proof.
  eexists. split; [apply main_spec|].
  simpl total_results. simpl table1. simpl table2. simpl table3.
  simpl heading1_count. simpl heading2_count. simpl heading3_count.
  repeat split. rewrite <- live_total. lia.
Qed.

(** C10.  A character for which the database has no name gets no result: it
    is in neither live bucket. *)
Theorem unnamed_character_excluded (characters : list char) (c : char) :
  ucd_name U c = None ->
  exists rep,
    main U characters = Ok rep /\
    ~ has_result c (table1 rep ++ table2 rep).
Proof.
  intros Hn. eexists. split; [apply main_spec|]. simpl table1. simpl table2.
  rewrite has_result_live. intros [_ Hg].
  apply all_gatesb_spec in Hg. destruct Hg as [[n [pre [post [H _]]]] _].
  congruence.
Qed.

Lemma has_result_bucket (k : category) (c : char) (cs : list char) :
  has_result c (bucket U k cs)
  <-> In c cs /\ all_gatesb U c = true /\ category_of U c = k.
Proof.
  unfold has_result. split.
  - intros [e [Hin Hc]]. apply in_bucket in Hin.
    destruct Hin as [c' [H1 [H2 [H3 ->]]]]. simpl in Hc. injection Hc as ->. auto.
  - intros [Hin [Hg Hk]]. exists (result_of U c). split; [|reflexivity].
    apply in_bucket. exists c. auto.
Qed.

Lemma breakdown_scalars (cs : str) : map scalarValue (breakdown U cs) = cs.
Proof. unfold breakdown. rewrite map_map. simpl. apply map_id. Qed.

(** C2.  For a character of the input that passes the gates, the bucket is
    decided by the number of scalar values of the NFD tail whose category
    starts with "M", counted by position: one puts the result in the
    one-diacritic bucket, two or more in the other one.  The tail values that
    are no marks are left out of the count and of the diacritic sequence, and
    are in the detailed breakdown as items that are not combining marks: their
    part of the string has no padding around the scalar value. *)
Theorem category_by_mark_count (characters : list char) (c : char) :
  In c characters ->
  all_gates U c ->
  exists rep,
    main U characters = Ok rep /\
    let tail := skipn 1 (ucd_nfd U c) in
    let n := length (List.filter (is_mark U) tail) in
    (n = 1 \/ 2 <= n)%nat /\
    (n = 1%nat -> has_result c (table1 rep) /\ ~ has_result c (table2 rep)) /\
    ((2 <= n)%nat -> has_result c (table2 rep) /\ ~ has_result c (table1 rep)) /\
    forall e, In e (table1 rep ++ table2 rep) -> e_char e = [c] ->
      e_diacritics e = List.filter (is_mark U) tail /\
      length (e_diacritics e) = n /\
      e_detailed e
      = join (lit " &nbsp;&nbsp;+&nbsp;&nbsp; ") (map (decomp_part U) (ucd_nfd U c)) /\
      e_detailed e = render (breakdown U (ucd_nfd U c)) /\
      forall x, In x tail -> is_mark U x = false ->
        ~ In x (e_diacritics e) /\
        In (decomp_part U x) (map (decomp_part U) (ucd_nfd U c)) /\
        decomp_part U x
        = [x] ++ lit " (" ++ name_or U x (lit "UNKNOWN") ++ lit ", "
              ++ (lit "U+" ++ format_04X x) ++ lit ")" /\
        exists item, In item (breakdown U (ucd_nfd U c)) /\
                     scalarValue item = x /\ isCombiningMark item = false.
Proof.
  intros Hin Hg. apply all_gatesb_spec in Hg.
  eexists. split; [apply main_spec|]. simpl table1. simpl table2. cbv zeta.
  pose proof (gates_marks c Hg) as Hm. unfold marks in Hm.
  assert (Hcat1 : length (List.filter (is_mark U) (skipn 1 (ucd_nfd U c))) = 1%nat
                  -> category_of U c = OneDiacritic).
  { intros E. unfold category_of, marks. rewrite E. reflexivity. }
  assert (Hcat2 : (2 <= length (List.filter (is_mark U) (skipn 1 (ucd_nfd U c))))%nat
                  -> category_of U c = TwoOrMoreDiacritics).
  { intros E. unfold category_of, marks.
    destruct (_ =? 1)%nat eqn:E1; [apply Nat.eqb_eq in E1; lia | reflexivity]. }
  split; [lia|]. split; [|split].
  - intros E. rewrite !has_result_bucket, (Hcat1 E). split; [auto|].
    intros [_ [_ H]]. discriminate.
  - intros E. rewrite !has_result_bucket, (Hcat2 E). split; [auto|].
    intros [_ [_ H]]. discriminate.
  - intros e He Hc. apply in_app_iff in He.
    assert (He' : e = result_of U c).
    { destruct He as [He | He]; apply in_bucket in He;
        destruct He as [c' [_ [_ [_ ->]]]]; simpl in Hc; injection Hc as ->;
        reflexivity. }
    subst e. unfold result_of, marks. simpl.
    assert (Htl : forall x, In x (skipn 1 (ucd_nfd U c)) -> In x (ucd_nfd U c)).
    { intros x Hx. destruct (ucd_nfd U c) as [|b tl]; [destruct Hx | right; exact Hx]. }
    split; [reflexivity|]. split; [reflexivity|].
    split.
    { rewrite <- detailed_decomp_render.
      unfold detailed_decomp, detailed_decomp_parts.
      rewrite snoc_loop_map. reflexivity. }
    split; [reflexivity|].
    intros x H H0. split; [|split; [|split]].
    + intros Hx. apply filter_In in Hx. destruct Hx as [_ Hx]. congruence.
    + apply in_map. apply Htl. exact H.
    + unfold decomp_part, ord. rewrite H0. reflexivity.
    + exists {| scalarValue := x;
                canonicalName := name_or U x (lit "UNKNOWN");
                codePointLabel := lit "U+" ++ format_04X x;
                isCombiningMark := is_mark U x |}.
      repeat split; [|assumption].
      unfold breakdown. apply in_map_iff. exists x. split; [reflexivity|].
      destruct (ucd_nfd U c) as [|b tl]; [destruct H | right; exact H].
Qed.

(** C4.  The fixed-pattern expander gives one result per table entry, in table
    order, whatever the database says of the two code points: the combined
    character is the two scalar values, the base is the first, the diacritic
    sequence holds the second.  The first entry gives a + U+0331.  The results
    fill the third table of the report for any input. *)
Theorem fixed_pattern_results :
  exists es,
    process_other_latin_lgr_occurrences U = Ok es /\
    length es = length patterns /\
    length es = 14%nat /\
    Forall2 (fun pat p =>
               pat = lit "U+" ++ format_04X (fst p) ++ lit " U+" ++ format_04X (snd p))
            patterns table_entries /\
    Forall2 (fun p e =>
               e_char e = [fst p; snd p] /\ e_base e = [fst p] /\
               e_diacritics e = [snd p] /\
               e_detailed e = detailed_decomp U [fst p; snd p])
            table_entries es /\
    (exists e0, nth_error es 0 = Some e0 /\ e_char e0 = [0x61; 0x331] /\
                e_base e0 = [0x61] /\ e_diacritics e0 = [0x331]) /\
    forall characters,
      exists rep, main U characters = Ok rep /\ table3 rep = es.
Proof.
  eexists. split; [apply expander_spec|].
  split; [reflexivity|]. split; [reflexivity|].
  split; [unfold patterns, table_entries; repeat constructor|].
  split.
  - unfold table_entries. simpl map.
    repeat (constructor;
            [simpl; rewrite detailed_decomp_render; repeat split; reflexivity|]).
    constructor.
  - split.
    + eexists. split; [reflexivity|]. repeat split.
    + intros characters. eexists. split; [apply main_spec | reflexivity].
Qed.

(** C6, amended.  The detailed component of a result is one string of markup:
    the rendering of a breakdown that has one item per element of the full
    decomposition, base included, in decomposition order.  The scalar values
    of that breakdown are the NFD form of the character for a live result,
    and the two scalar values of the table entry for a fixed-pattern
    result. *)
Theorem detailed_is_rendered_breakdown (characters : list char) :
  exists rep,
    main U characters = Ok rep /\
    (forall e, In e (table1 rep ++ table2 rep) ->
       exists c,
         e_char e = [c] /\
         e_detailed e = detailed_decomp U (ucd_nfd U c) /\
         e_detailed e = render (breakdown U (ucd_nfd U c)) /\
         length (breakdown U (ucd_nfd U c)) = length (ucd_nfd U c) /\
         map scalarValue (breakdown U (ucd_nfd U c)) = ucd_nfd U c) /\
    Forall2 (fun p e =>
               e_detailed e = render (breakdown U [fst p; snd p]) /\
               map scalarValue (breakdown U [fst p; snd p]) = [fst p; snd p])
            table_entries (table3 rep).
Proof.
  eexists. split; [apply main_spec|]. simpl table1. simpl table2. simpl table3.
  split.
  - intros e He. apply in_app_iff in He.
    assert (H : exists c, e = result_of U c).
    { destruct He as [He | He]; apply in_bucket in He;
        destruct He as [c [_ [_ [_ ->]]]]; eauto. }
    destruct H as [c ->]. exists c. unfold result_of. simpl.
    rewrite detailed_decomp_render, breakdown_scalars.
    repeat split. unfold breakdown. apply length_map.
  - unfold table_entries. simpl map.
    repeat (constructor; [split; reflexivity|]). constructor.
Qed.

Lemma store_rows (characters : list char) (conn : list row) :
  exists new,
    fold_left (store_char U) characters conn = conn ++ new /\
    Forall2 (stored_as U) characters new.
Proof.
  revert conn. induction characters as [|c cs IH]; intros conn.
  - exists []. split; [simpl; rewrite app_nil_r; reflexivity | constructor].
  - simpl. destruct (IH (store_char U conn c)) as [new [E F]].
    rewrite E. unfold store_char, insert_row. rewrite <- app_assoc.
    eexists. split; [reflexivity|]. constructor; [|exact F].
    unfold stored_as, name_or. simpl.
    repeat split. intros ->. reflexivity.
Qed.

(** C5, amended.  The name stored for a character is its canonical name when
    the database has one and the empty string when it has none, and such a
    character is stored as not Latin.  The sentinel "UNKNOWN" is the name
    given to a nameless scalar value in the detailed breakdown.  A missing
    name raises nothing: the run goes on to its report. *)
Theorem stored_name_or_empty (characters : list char) :
  Forall2 (stored_as U) characters
          (fst (store_data_in_db U characters setup_temp_database)) /\
  (forall c, ucd_name U c = None ->
     map canonicalName (breakdown U [c]) = [lit "UNKNOWN"] /\
     exists shown,
       decomp_part U c = shown ++ lit " (UNKNOWN, U+" ++ format_04X c ++ lit ")") /\
  exists rep, main U characters = Ok rep.
Proof.
  split; [|split].
  - unfold store_data_in_db, setup_temp_database. simpl fst.
    destruct (store_rows characters []) as [new [E F]]. rewrite E. exact F.
  - intros c Hn. unfold breakdown, decomp_part, name_or. simpl map. rewrite !Hn.
    split; [reflexivity|].
    exists (if is_mark U c then lit "&nbsp;" ++ [c] ++ lit "&nbsp;" else [c]).
    unfold ord. f_equal.
  - eexists. apply main_spec.
Qed.

Lemma bucket_sublist (k : category) (cs : list char) :
  sublist (map e_char (bucket U k cs)) (map (fun c => [c]) cs).
Proof.
  induction cs as [|c cs IH]; [constructor|].
  simpl. rewrite classify_all_gatesb.
  destruct (all_gatesb U c); [|apply sublist_cons; exact IH].
  destruct (category_eqb k (category_of U c)).
  - simpl. apply sublist_skip. exact IH.
  - apply sublist_cons. exact IH.
Qed.

Lemma results_for_app (c : char) (es es' : list entry) :
  results_for c (es ++ es') = (results_for c es + results_for c es')%nat.
Proof. unfold results_for. rewrite List.filter_app, length_app. reflexivity. Qed.

Lemma results_for_cons (c : char) (e : entry) (es : list entry) :
  results_for c (e :: es)
  = ((if bool_decide (e_char e = [c]) then 1 else 0) + results_for c es)%nat.
Proof.
  unfold results_for. simpl List.filter.
  destruct (bool_decide (e_char e = [c])); reflexivity.
Qed.

Lemma results_for_live (c : char) (cs : list char) :
  all_gatesb U c = true ->
  results_for c (bucket U OneDiacritic cs ++ bucket U TwoOrMoreDiacritics cs)
  = count_occ N.eq_dec cs c.
Proof.
  intros Hg. rewrite results_for_app.
  induction cs as [|x cs IH]; [reflexivity|].
  simpl bucket. rewrite classify_all_gatesb. simpl count_occ.
  assert (Hb : bool_decide (e_char (result_of U x) = [c])
               = if N.eq_dec x c then true else false).
  { destruct (N.eq_dec x c) as [-> | Hne].
    - apply bool_decide_eq_true_2. reflexivity.
    - apply bool_decide_eq_false_2. simpl. congruence. }
  destruct (all_gatesb U x) eqn:Hx.
  - destruct (category_of_cases U x) as [Hk | Hk]; rewrite Hk;
      simpl category_eqb; cbv iota; rewrite results_for_cons, Hb;
      destruct (N.eq_dec x c); lia.
  - destruct (N.eq_dec x c) as [-> | Hne]; [congruence | exact IH].
Qed.

(** C7.  Each live bucket lists its results in the order of the input: it is
    the image of the input characters that pass the gates and fall in the
    bucket, so its characters are a subsequence of the input, and a bucket for
    two inputs one after the other is the two buckets one after the other.
    Nothing is deduplicated: a character that passes the gates has as many
    results as it has occurrences in the input. *)
Theorem buckets_keep_input_order (xs ys : list char) :
  exists rx ry rep,
    main U xs = Ok rx /\ main U ys = Ok ry /\ main U (xs ++ ys) = Ok rep /\
    table1 rep = table1 rx ++ table1 ry /\
    table2 rep = table2 rx ++ table2 ry /\
    table1 rep
    = map (result_of U)
          (List.filter (fun c => all_gatesb U c
                                 && category_eqb OneDiacritic (category_of U c))
                       (xs ++ ys)) /\
    table2 rep
    = map (result_of U)
          (List.filter (fun c => all_gatesb U c
                                 && category_eqb TwoOrMoreDiacritics (category_of U c))
                       (xs ++ ys)) /\
    sublist (map e_char (table1 rep)) (map (fun c => [c]) (xs ++ ys)) /\
    sublist (map e_char (table2 rep)) (map (fun c => [c]) (xs ++ ys)) /\
    forall c, all_gates U c ->
      results_for c (table1 rep ++ table2 rep) = count_occ N.eq_dec (xs ++ ys) c.
Proof.
  do 3 eexists.
  split; [apply main_spec|]. split; [apply main_spec|]. split; [apply main_spec|].
  simpl table1. simpl table2.
  split; [apply bucket_app|]. split; [apply bucket_app|].
  split; [apply bucket_filter_map|]. split; [apply bucket_filter_map|].
  split; [apply bucket_sublist|]. split; [apply bucket_sublist|].
  intros c Hg. apply results_for_live. apply all_gatesb_spec. exact Hg.
Qed.

End Claims.

(** ** The analyzer on the database fragment *)

(** Scenario 1 of the design: U+00E1 gives one result with one diacritic. *)
Example a_acute_one_diacritic :
  exists rep e,
    main UCD.db [0xE1] = Ok rep /\ table1 rep = [e] /\ table2 rep = [] /\
    e_char e = [0xE1] /\ e_base e = lit "a" /\ e_diacritics e = [0x301].
Proof. do 2 eexists. vm_compute. repeat split. Qed.

(** Scenarios 3 and 4: a plain letter and a character that is not Latin give
    no result. *)
Example plain_and_cjk_excluded :
  exists rep,
    main UCD.db [0x62; 0x4E2D] = Ok rep /\ table1 rep = [] /\ table2 rep = [] /\
    total_results rep = 0.
Proof. eexists. vm_compute. repeat split. Qed.

(** Two marks of the same kind count as two. *)
Example repeated_mark_counts_twice :
  exists rep e,
    main repeated_mark_db [0x100] = Ok rep /\ table1 rep = [] /\ table2 rep = [e] /\
    e_diacritics e = [0x301; 0x301].
Proof. do 2 eexists. vm_compute. repeat split. Qed.

Lemma category_by_mark_count_witness :
  In 0xE1 [0xE1; 0x62; 0x1E1] /\
  all_gates UCD.db 0xE1 /\
  exists rep,
    main UCD.db [0xE1; 0x62; 0x1E1] = Ok rep /\
    has_result 0xE1 (table1 rep) /\ ~ has_result 0xE1 (table2 rep).
Proof.
  assert (Hin : In 0xE1 [0xE1; 0x62; 0x1E1]) by (left; reflexivity).
  assert (Hg : all_gates UCD.db 0xE1) by (apply all_gatesb_spec; vm_compute; reflexivity).
  split; [exact Hin|]. split; [exact Hg|].
  destruct (category_by_mark_count UCD.db [0xE1; 0x62; 0x1E1] 0xE1 Hin Hg)
    as [rep [Hm [_ [H1 _]]]].
  exists rep. split; [exact Hm|]. apply H1. reflexivity.
Defined.

Lemma unnamed_character_excluded_witness :
  ucd_name UCD.db 0x80 = None /\
  exists rep,
    main UCD.db [0x80; 0xE1] = Ok rep /\
    ~ has_result 0x80 (table1 rep ++ table2 rep).
Proof.
  split; [reflexivity|].
  apply (unnamed_character_excluded UCD.db [0x80; 0xE1] 0x80). reflexivity.
Defined.

(** The eleventh result of the fixed-pattern expander has U+1EB9 as its base
    character, which is no ASCII letter. *)
Lemma fixed_pattern_base_not_ascii :
  (exists es e,
     process_other_latin_lgr_occurrences UCD.db = Ok es /\
     nth_error es 10 = Some e /\ e_char e = [0x1EB9; 0x300] /\
     e_base e = [0x1EB9]) /\
  ~ (forall es e,
       process_other_latin_lgr_occurrences UCD.db = Ok es ->
       In e es ->
       exists b, e_base e = [b] /\ b ∈ ASCII_LETTERS).
Proof.
  split.
  - do 2 eexists. rewrite expander_spec. repeat split.
  - intros H.
    destruct (H _ (expand_entry UCD.db (0x1EB9, 0x300)) (expander_spec UCD.db))
      as [b [Hb Hin]].
    + apply in_map. unfold table_entries. do 10 right. left. reflexivity.
    + simpl in Hb. injection Hb as <-.
      apply ASCII_LETTERS_spec in Hin. unfold is_ascii_letter in Hin. lia.
Qed.

(** The row stored for U+0080, which has no name, has the empty string as its
    name, not the sentinel. *)
Lemma stored_name_is_empty_string :
  ucd_name UCD.db 0x80 = None /\
  fst (store_data_in_db UCD.db [0x80] setup_temp_database)
  = [{| col_id := 1; col_character := 0x80; col_name := lit "";
        col_decomposition := lit ""; col_is_latin := 0;
        col_has_ascii_base := 0 |}] /\
  ~ (forall r,
       In r (fst (store_data_in_db UCD.db [0x80] setup_temp_database)) ->
       col_name r = lit "UNKNOWN" /\ col_name r <> lit "").
Proof.
  split; [reflexivity|]. split; [reflexivity|].
  intros H. destruct (H _ (or_introl eq_refl)) as [H1 _]. discriminate H1.
Qed.

(** The detailed component of the result for U+00E1 is a string of markup,
    not the NFD form of the character. *)
Lemma detailed_is_markup :
  exists rep e,
    main UCD.db [0xE1] = Ok rep /\ table1 rep = [e] /\
    ucd_nfd UCD.db 0xE1 = [0x61; 0x301] /\
    e_detailed e
    = lit "a (LATIN SMALL LETTER A, U+0061) &nbsp;&nbsp;+&nbsp;&nbsp; &nbsp;"
      ++ [0x301] ++ lit "&nbsp; (COMBINING ACUTE ACCENT, U+0301)" /\
    contains (lit "&nbsp;") (e_detailed e) = true /\
    e_detailed e <> ucd_nfd UCD.db 0xE1.
Proof.
  do 2 eexists. split; [vm_compute; reflexivity|].
  split; [reflexivity|]. split; [reflexivity|].
  split; [vm_compute; reflexivity|]. split; [vm_compute; reflexivity|].
  vm_compute. discriminate.
Qed.

(** ** Extraction of the candidate characters *)

Lemma unique_loop (characters : list char) (u : list char) (seen : gset N) :
  fst (fold_left unique_step characters (u, seen)) = u ++ unique_from seen characters.
Proof.
  revert u seen. induction characters as [|ch rest IH]; intros u seen; simpl.
  - rewrite app_nil_r. reflexivity.
  - unfold unique_step at 2. simpl fst. simpl snd.
    destruct (bool_decide (ch ∉ seen)).
    + rewrite IH, <- app_assoc. reflexivity.
    + apply IH.
Qed.

Lemma unique_chars_from (characters : list char) :
  unique_chars characters = unique_from ∅ characters.
Proof. unfold unique_chars. rewrite unique_loop. reflexivity. Qed.

Lemma in_unique_from (seen : gset N) (characters : list char) (x : char) :
  In x (unique_from seen characters) <-> In x characters /\ x ∉ seen.
Proof.
  revert seen. induction characters as [|ch rest IH]; intros seen; simpl.
  - tauto.
  - destruct (bool_decide (ch ∉ seen)) eqn:E.
    + apply bool_decide_eq_true in E. simpl. rewrite IH. split.
      * intros [-> | [H1 H2]]; [auto|]. split; [auto | set_solver].
      * intros [[-> | H1] H2]; [auto|].
        destruct (decide (x = ch)) as [-> | Hne]; [auto|].
        right. split; [exact H1 | set_solver].
    + apply bool_decide_eq_false in E. rewrite IH. split.
      * intros [H1 H2]. auto.
      * intros [[-> | H1] H2]; [contradiction | auto].
Qed.

Lemma NoDup_unique_from (seen : gset N) (characters : list char) :
  NoDup (unique_from seen characters).
Proof.
  revert seen. induction characters as [|ch rest IH]; intros seen; simpl.
  - constructor.
  - destruct (bool_decide (ch ∉ seen)); [|apply IH].
    apply NoDup_cons_2; [|apply IH].
    rewrite list_elem_of_In, in_unique_from. intros [_ H]. set_solver.
Qed.

Lemma sublist_unique_from (seen : gset N) (characters : list char) :
  sublist (unique_from seen characters) characters.
Proof.
  revert seen. induction characters as [|ch rest IH]; intros seen; simpl.
  - constructor.
  - destruct (bool_decide (ch ∉ seen)).
    + apply sublist_skip, IH.
    + apply sublist_cons, IH.
Qed.

Lemma unique_from_filter (seen drop : gset N) (characters : list char) :
  unique_from (seen ∪ drop) characters
  = unique_from seen (List.filter (fun x => bool_decide (x ∉ drop)) characters).
Proof.
  revert seen. induction characters as [|ch rest IH]; intros seen; simpl.
  - reflexivity.
  - destruct (bool_decide (ch ∉ drop)) eqn:Ed.
    + apply bool_decide_eq_true in Ed. simpl.
      destruct (bool_decide (ch ∉ seen)) eqn:Es.
      * apply bool_decide_eq_true in Es.
        rewrite bool_decide_eq_true_2 by set_solver.
        f_equal. rewrite <- IH. f_equal. set_solver.
      * apply bool_decide_eq_false in Es.
        rewrite bool_decide_eq_false_2 by set_solver. apply IH.
    + apply bool_decide_eq_false in Ed.
      rewrite bool_decide_eq_false_2 by set_solver. apply IH.
Qed.

Lemma unique_from_NoDup (seen : gset N) (characters : list char) :
  NoDup characters -> (forall x, In x characters -> x ∉ seen) ->
  unique_from seen characters = characters.
Proof.
  revert seen. induction characters as [|ch rest IH]; intros seen Hnd Hs; simpl.
  - reflexivity.
  - apply NoDup_cons in Hnd. destruct Hnd as [Hch Hnd].
    rewrite bool_decide_eq_true_2 by (apply Hs; left; reflexivity).
    f_equal. apply IH; [exact Hnd|].
    intros x Hx. assert (x <> ch).
    { intros ->. apply Hch. apply list_elem_of_In. exact Hx. }
    specialize (Hs x (or_intror Hx)). set_solver.
Qed.

(** X1.  The list of characters the extraction returns has no duplicates, and
    it is a subsequence of the characters collected from the cells: nothing
    is reordered. *)
Theorem fetched_characters_unique (tables : list (list (list str))) :
  NoDup (fetch_data_from_url tables) /\
  sublist (fetch_data_from_url tables) (extract_characters tables).
Proof.
  unfold fetch_data_from_url. rewrite unique_chars_from.
  split; [apply NoDup_unique_from | apply sublist_unique_from].
Qed.

(** X2.  Removing duplicates keeps every character at its first occurrence:
    the head of the list stays, and the rest is treated the same way once the
    head's later occurrences are taken out. *)
Theorem unique_chars_first_occurrence (ch : char) (rest : list char) :
  unique_chars [] = [] /\
  unique_chars (ch :: rest)
  = ch :: unique_chars (List.filter (fun x => bool_decide (x <> ch)) rest).
Proof.
  split; [reflexivity|].
  rewrite !unique_chars_from. simpl.
  rewrite bool_decide_eq_true_2 by set_solver. f_equal.
  replace ({[ch]} ∪ ∅ : gset N) with (∅ ∪ {[ch]} : gset N) by set_solver.
  rewrite unique_from_filter. f_equal.
  apply filter_ext. intros x.
  destruct (decide (x = ch)) as [-> | Hne].
  - rewrite bool_decide_eq_false_2 by set_solver.
    rewrite bool_decide_eq_false_2 by tauto. reflexivity.
  - rewrite bool_decide_eq_true_2 by set_solver.
    rewrite bool_decide_eq_true_2 by exact Hne. reflexivity.
Qed.

(** X3.  Removing duplicates leaves a list unchanged exactly when it has no
    duplicates; so doing it twice is the same as doing it once. *)
Theorem unique_chars_fixpoint (characters : list char) :
  (unique_chars characters = characters <-> NoDup characters) /\
  unique_chars (unique_chars characters) = unique_chars characters.
Proof.
  assert (H : forall l : list N, NoDup l -> unique_chars l = l).
  { intros l Hl. rewrite unique_chars_from.
    apply unique_from_NoDup; [exact Hl | set_solver]. }
  split.
  - split; [|apply H].
    intros E. rewrite <- E, unique_chars_from. apply NoDup_unique_from.
  - apply H. rewrite unique_chars_from. apply NoDup_unique_from.
Qed.

Lemma filter_loop {A : Type} (f : A -> bool) (xs acc : list A) :
  fold_left (fun acc x => if f x then acc ++ [x] else acc) xs acc
  = acc ++ List.filter f xs.
Proof.
  revert acc. induction xs as [|x xs IH]; intros acc; simpl.
  - rewrite app_nil_r. reflexivity.
  - rewrite IH. destruct (f x); [rewrite <- app_assoc|]; reflexivity.
Qed.

Lemma append_loop {A B : Type} (step : list B -> A -> list B) (f : A -> list B)
      (xs : list A) (acc : list B) :
  (forall acc x, step acc x = acc ++ f x) ->
  fold_left step xs acc = acc ++ flat_map f xs.
Proof.
  intros Hstep. revert acc. induction xs as [|x xs IH]; intros acc; simpl.
  - rewrite app_nil_r. reflexivity.
  - rewrite IH, Hstep, <- app_assoc. reflexivity.
Qed.

Lemma cell_characters_spec (characters : list char) (raw : str) :
  cell_characters characters raw = characters ++ cell_candidates raw.
Proof.
  unfold cell_characters, cell_candidates, ord.
  destruct (length (strip raw) <=? 2)%nat.
  - apply filter_loop.
  - rewrite app_nil_r. reflexivity.
Qed.

Lemma row_characters_spec (characters : list char) (cells : list str) :
  row_characters characters cells = characters ++ flat_map cell_candidates cells.
Proof.
  unfold row_characters. destruct cells as [|raw cells].
  - rewrite app_nil_r. reflexivity.
  - apply append_loop. apply cell_characters_spec.
Qed.

Lemma extract_characters_spec (tables : list (list (list str))) :
  extract_characters tables
  = flat_map (flat_map (flat_map cell_candidates)) tables.
Proof.
  unfold extract_characters.
  rewrite (append_loop table_characters (flat_map (flat_map cell_candidates)));
    [reflexivity|].
  intros acc rows. unfold table_characters.
  apply append_loop. apply row_characters_spec.
Qed.

Lemma fetched_character_iff_aux (tables : list (list (list str))) (c : char) :
  In c (fetch_data_from_url tables) -> 127 < c.
Proof.
  unfold fetch_data_from_url.
  rewrite unique_chars_from, in_unique_from, extract_characters_spec.
  intros [H _]. apply in_flat_map in H. destruct H as [rows [_ H]].
  apply in_flat_map in H. destruct H as [cells [_ H]].
  apply in_flat_map in H. destruct H as [raw [_ H]].
  unfold cell_candidates in H.
  destruct (length (strip raw) <=? 2)%nat; [|destruct H].
  apply filter_In in H. destruct H as [_ H]. apply N.ltb_lt. exact H.
Qed.

(** X4.  A character is returned by the extraction exactly when it is not
    ASCII and occurs in some cell whose text, once stripped, has at most two
    characters.  Longer cells give nothing, whatever they hold. *)
Theorem fetched_character_iff (tables : list (list (list str))) (c : char) :
  In c (fetch_data_from_url tables)
  <-> 127 < c /\
      exists rows cells raw,
        In rows tables /\ In cells rows /\ In raw cells /\
        (length (strip raw) <= 2)%nat /\ In c (strip raw).
Proof.
  unfold fetch_data_from_url.
  rewrite unique_chars_from, in_unique_from, extract_characters_spec.
  split.
  - intros [H _]. apply in_flat_map in H. destruct H as [rows [Ht H]].
    apply in_flat_map in H. destruct H as [cells [Hr H]].
    apply in_flat_map in H. destruct H as [raw [Hc H]].
    unfold cell_candidates in H.
    destruct (length (strip raw) <=? 2)%nat eqn:E; [|destruct H].
    apply filter_In in H. destruct H as [Hin Hc127].
    apply N.ltb_lt in Hc127. apply Nat.leb_le in E.
    split; [exact Hc127|]. exists rows, cells, raw. auto.
  - intros [Hc127 [rows [cells [raw [Ht [Hr [Hc [E Hin]]]]]]]].
    split; [|set_solver].
    apply in_flat_map. exists rows. split; [exact Ht|].
    apply in_flat_map. exists cells. split; [exact Hr|].
    apply in_flat_map. exists raw. split; [exact Hc|].
    unfold cell_candidates. apply Nat.leb_le in E. rewrite E.
    apply filter_In. split; [exact Hin | apply N.ltb_lt; exact Hc127].
Qed.

(** ** The [characters] table through the run *)

Lemma max_snoc (l : list N) (x : N) :
  fold_right N.max 0 (l ++ [x]) = N.max (fold_right N.max 0 l) x.
Proof.
  induction l as [|y l IH]; simpl.
  - lia.
  - rewrite IH. lia.
Qed.

Lemma next_id_insert (conn : list row) (c : char) (name dec : str) (latin : N) :
  next_id (insert_row conn c name dec latin) = next_id conn + 1.
Proof.
  unfold next_id, insert_row. rewrite map_app. cbn [map col_id].
  rewrite max_snoc. unfold next_id. lia.
Qed.

Lemma id_below_next (conn : list row) (i : N) :
  In i (map col_id conn) -> i < next_id conn.
Proof.
  unfold next_id. induction (map col_id conn) as [|y l IH]; simpl.
  - intros [].
  - intros [-> | H]; [lia|]. specialize (IH H). lia.
Qed.

Section TableFacts.

Variable U : unicodedata.

(** What [store_data_in_db] writes for the character [c] under the id [i]. *)
Lemma store_char_row (conn : list row) (c : char) :
  store_char U conn c
  = conn ++ [{| col_id := next_id conn; col_character := c;
                col_name := name_or U c (lit "");
                col_decomposition := ucd_decomposition U c;
                col_is_latin :=
                  if contains (lit "LATIN") (name_or U c (lit "")) then 1 else 0;
                col_has_ascii_base := 0 |}].
Proof. reflexivity. Qed.

Lemma store_new_rows (characters : list char) (conn : list row) :
  exists new,
    fold_left (store_char U) characters conn = conn ++ new /\
    Forall2 (fun c r =>
               col_character r = c /\
               col_name r = name_or U c (lit "") /\
               col_decomposition r = ucd_decomposition U c /\
               col_is_latin r
               = (if contains (lit "LATIN") (name_or U c (lit "")) then 1 else 0) /\
               col_has_ascii_base r = 0)
            characters new /\
    map col_id new
    = map (fun k => next_id conn + N.of_nat k) (seq 0 (length characters)).
Proof.
  revert conn. induction characters as [|c cs IH]; intros conn.
  - exists []. simpl. rewrite app_nil_r. repeat split. constructor.
  - simpl fold_left. destruct (IH (store_char U conn c)) as [new [E [F I]]].
    rewrite E, store_char_row, <- app_assoc. eexists. split; [reflexivity|].
    split.
    + constructor; [|exact F]. simpl. repeat split.
    + simpl map. f_equal; [simpl; lia|].
      rewrite I. unfold store_char. rewrite next_id_insert.
      rewrite <- seq_shift, map_map. apply map_ext. intros k. lia.
Qed.

Lemma store_ids_distinct (characters : list char) (conn : list row) :
  NoDup (map col_id conn) ->
  NoDup (map col_id (fold_left (store_char U) characters conn)).
Proof.
  intros Hnd. destruct (store_new_rows characters conn) as [new [E [_ I]]].
  rewrite E, map_app, I. apply NoDup_app. split; [exact Hnd|]. split.
  - intros i Hi Hi'. apply list_elem_of_In in Hi, Hi'.
    apply id_below_next in Hi. apply in_map_iff in Hi'.
    destruct Hi' as [k [<- _]]. lia.
  - apply NoDup_fmap_2; [|apply NoDup_seq].
    intros k k' H. lia.
Qed.



End TableFacts.

Section AnalysisFacts.

Variable U : unicodedata.

(** One turn of the loop of [analyze_characters], on any row. *)
Lemma analyze_row_any (st : astate) (r : row) :
  analyze_row U st r
  = Ok {| a_conn := flag_row U (a_conn st) r;
          one_diacritic_results :=
            one_diacritic_results st
            ++ map (result_of U) (selected_of U true [col_character r]);
          two_diacritics_results :=
            two_diacritics_results st
            ++ map (result_of U) (selected_of U false [col_character r]) |}.
Proof.
  destruct st as [conn one two]. destruct r as [i c nm dec lat hab].
  unfold analyze_row, flag_row, selected_of, decomposition_gatesb.
  simpl col_character. simpl col_id. simpl a_conn.
  simpl one_diacritic_results. simpl two_diacritics_results. simpl List.filter.
  unfold marks.
  destruct (ucd_nfd U c) as [|b [|m tl]] eqn:E.
  - simpl. rewrite !app_nil_r. reflexivity.
  - simpl. rewrite !app_nil_r. reflexivity.
  - change ((1 <? length (b :: m :: tl))%nat) with true.
    change (index (b :: m :: tl) 0) with (Ok b).
    change (skipn 1 (b :: m :: tl)) with (m :: tl).
    cbv iota. unfold bind at 1 2.
    destruct (bool_decide (b ∈ ASCII_LETTERS)) eqn:EB.
    2:{ simpl. rewrite !app_nil_r. reflexivity. }
    cbv zeta.
    rewrite sum_ones_length, join_chars, detailed_decomp_render, existsb_filter.
    assert (R : forall ms, List.filter (is_mark U) (m :: tl) = ms ->
                {| e_char := [c]; e_base := [b]; e_diacritics := ms;
                   e_detailed := render (breakdown U (b :: m :: tl)) |}
                = result_of U c).
    { intros ms <-. unfold result_of, marks. rewrite E. reflexivity. }
    destruct (List.filter (is_mark U) (m :: tl)) as [|x xs] eqn:EM.
    + simpl. rewrite !app_nil_r. reflexivity.
    + assert (H0 : (0 <? N.of_nat (length (x :: xs))) = true)
        by (apply N.ltb_lt; simpl length; lia).
      rewrite H0. simpl andb. cbv iota. unfold bind. cbv beta iota.
      rewrite !(R _ eq_refl).
      destruct xs as [|y ys]; simpl; rewrite ?app_nil_r; reflexivity.
Qed.

Lemma selected_of_app (one : bool) (xs ys : list char) :
  selected_of U one (xs ++ ys) = selected_of U one xs ++ selected_of U one ys.
Proof. unfold selected_of. apply List.filter_app. Qed.

(** The whole loop, from any state and on any rows. *)
Lemma analyze_rows_any (rows : list row) (st : astate) :
  for_each (analyze_row U) rows st
  = Ok {| a_conn := fold_left (flag_row U) rows (a_conn st);
          one_diacritic_results :=
            one_diacritic_results st
            ++ map (result_of U) (selected_of U true (map col_character rows));
          two_diacritics_results :=
            two_diacritics_results st
            ++ map (result_of U) (selected_of U false (map col_character rows)) |}.
Proof.
  revert st. induction rows as [|r rows IH]; intros st.
  - destruct st. simpl. rewrite !app_nil_r. reflexivity.
  - simpl for_each. rewrite analyze_row_any. unfold bind. rewrite IH.
    simpl a_conn. simpl one_diacritic_results. simpl two_diacritics_results.
    change (map col_character (r :: rows))
      with ([col_character r] ++ map col_character rows).
    rewrite !selected_of_app, !map_app, <- !app_assoc. reflexivity.
Qed.

(** The updates of the loop, row by row of the table. *)
Lemma flag_rows_map (rows conn : list row) :
  fold_left (flag_row U) rows conn
  = map (fun r =>
           if existsb (fun r' => (col_id r =? col_id r')
                                 && decomposition_gatesb U (col_character r')) rows
           then with_ascii_base r else r) conn.
Proof.
  revert conn. induction rows as [|r' rows IH]; intros conn.
  - simpl. symmetry. apply map_id.
  - simpl fold_left. rewrite IH. unfold flag_row.
    destruct (decomposition_gatesb U (col_character r')) eqn:G.
    + unfold set_has_ascii_base. rewrite map_map. apply map_ext. intros r.
      simpl existsb. rewrite G, andb_true_r.
      fold (with_ascii_base r).
      destruct (col_id r =? col_id r') eqn:Ei; simpl orb.
      * simpl col_id. destruct (existsb _ rows); reflexivity.
      * reflexivity.
    + apply map_ext. intros r. simpl existsb. rewrite G, andb_false_r. reflexivity.
Qed.

Lemma analyze_characters_any (conn : list row) :
  analyze_characters U conn
  = Ok {| a_conn := map (fun r => if flagged U conn r then with_ascii_base r else r) conn;
          one_diacritic_results := map (result_of U) (selected U true conn);
          two_diacritics_results := map (result_of U) (selected U false conn) |}.
Proof.
  unfold analyze_characters. rewrite analyze_rows_any.
  simpl a_conn. simpl one_diacritic_results. simpl two_diacritics_results.
  rewrite flag_rows_map. reflexivity.
Qed.

(** X7.  [analyze_characters] raises on no table.  Its two lists come from
    the rows whose [is_latin] column is 1, in row order, whatever names the
    rows carry: a row is in the first list when the NFD form of its character
    passes the three tests with one mark, in the second when it passes them
    with more. *)
Theorem analyze_any_table (conn : list row) :
  exists st,
    analyze_characters U conn = Ok st /\
    one_diacritic_results st = map (result_of U) (selected U true conn) /\
    two_diacritics_results st = map (result_of U) (selected U false conn) /\
    forall e, In e (one_diacritic_results st ++ two_diacritics_results st) ->
      exists r, In r conn /\ col_is_latin r = 1 /\
                e_char e = [col_character r] /\
                decomposition_gatesb U (col_character r) = true.
Proof.
  eexists. split; [apply analyze_characters_any|].
  simpl one_diacritic_results. simpl two_diacritics_results.
  split; [reflexivity|]. split; [reflexivity|].
  intros e He. rewrite <- map_app in He. apply in_map_iff in He.
  destruct He as [c [<- Hc]].
  assert (H : In c (map col_character (select_latin conn))
              /\ decomposition_gatesb U c = true).
  { apply in_app_iff in Hc. unfold selected, selected_of in Hc.
    destruct Hc as [Hc | Hc]; apply filter_In in Hc; destruct Hc as [Hin Hg];
      apply andb_true_iff in Hg; tauto. }
  destruct H as [Hin Hg]. apply in_map_iff in Hin. destruct Hin as [r [<- Hr]].
  unfold select_latin in Hr. apply filter_In in Hr. destruct Hr as [Hr Hl].
  exists r. apply N.eqb_eq in Hl. auto.
Qed.

(** X8.  The analysis changes nothing in the table but [has_ascii_base]: the
    rows keep their number, order, ids, characters, names, decompositions and
    Latin flags.  A row gets [has_ascii_base] 1 when a Latin row with its id
    passes the tests, and keeps its value otherwise; the flag is never put
    back to 0. *)
Theorem analysis_only_sets_flag (conn : list row) :
  exists st,
    analyze_characters U conn = Ok st /\
    Forall2 (fun r r' =>
               col_id r' = col_id r /\ col_character r' = col_character r /\
               col_name r' = col_name r /\
               col_decomposition r' = col_decomposition r /\
               col_is_latin r' = col_is_latin r /\
               col_has_ascii_base r'
               = (if flagged U conn r then 1 else col_has_ascii_base r))
            conn (a_conn st).
Proof.
  eexists. split; [apply analyze_characters_any|]. simpl a_conn.
  apply Forall2_fmap_r. apply Forall_Forall2_diag. apply Forall_forall.
  intros r _. unfold compose. cbv beta.
  destruct (flagged U conn r); simpl; tauto.
Qed.

End AnalysisFacts.

Lemma NoDup_map_inj {A B : Type} (f : A -> B) (l : list A) (a b : A) :
  NoDup (map f l) -> In a l -> In b l -> f a = f b -> a = b.
Proof.
  induction l as [|x l IH]; simpl; [tauto|].
  intros Hnd Ha Hb E. apply NoDup_cons in Hnd. destruct Hnd as [Hx Hnd].
  destruct Ha as [-> | Ha], Hb as [-> | Hb].
  - reflexivity.
  - exfalso. apply Hx. rewrite E. apply list_elem_of_In, in_map, Hb.
  - exfalso. apply Hx. rewrite <- E. apply list_elem_of_In, in_map, Ha.
  - apply IH; assumption.
Qed.

Lemma Forall2_map_in {A B : Type} (Q R : A -> B -> Prop) (F : B -> B)
      (xs : list A) (ys : list B) :
  Forall2 Q xs ys ->
  (forall x y, In y ys -> Q x y -> R x (F y)) ->
  Forall2 R xs (map F ys).
Proof.
  induction 1 as [|x y xs ys Hxy Hrest IH]; intros H; simpl.
  - constructor.
  - constructor.
    + apply H; [left; reflexivity | exact Hxy].
    + apply IH. intros x' y' Hin. apply H. right. exact Hin.
Qed.

Section RunFacts.

Variable U : unicodedata.

Lemma all_gatesb_split (c : char) :
  all_gatesb U c
  = contains (lit "LATIN") (name_or U c (lit "")) && decomposition_gatesb U c.
Proof.
  unfold all_gatesb, decomposition_gatesb. rewrite !andb_assoc. reflexivity.
Qed.

(** In a table with distinct ids, a row is updated exactly when it is Latin
    itself and passes the tests. *)
Lemma flagged_distinct_ids (conn : list row) (r : row) :
  NoDup (map col_id conn) -> In r conn ->
  flagged U conn r
  = (col_is_latin r =? 1) && decomposition_gatesb U (col_character r).
Proof.
  intros Hnd Hr. unfold flagged, select_latin.
  apply eq_true_iff_eq. rewrite existsb_exists, andb_true_iff. split.
  - intros [r' [Hr' P]]. apply filter_In in Hr'. destruct Hr' as [Hin Hl].
    apply andb_true_iff in P. destruct P as [Ei G]. apply N.eqb_eq in Ei.
    assert (r = r') by (eapply NoDup_map_inj; eauto). subst r'. auto.
  - intros [Hl G]. exists r. split; [apply filter_In; auto|].
    rewrite N.eqb_refl, G. reflexivity.
Qed.

(** X9.  After [store_data_in_db] into a fresh table and [analyze_characters],
    the row of an input character has [has_ascii_base] 1 exactly when the
    character passes all four gates, so exactly when it has a result; the rows
    are those of the input characters, in input order. *)
Theorem flag_marks_results (characters : list char) :
  exists st,
    analyze_characters U (fst (store_data_in_db U characters setup_temp_database))
    = Ok st /\
    Forall2 (fun c r =>
               col_character r = c /\
               col_has_ascii_base r = (if all_gatesb U c then 1 else 0))
            characters (a_conn st) /\
    forall c, In c characters ->
      (has_result c (one_diacritic_results st ++ two_diacritics_results st)
       <-> exists r, In r (a_conn st) /\ col_character r = c /\
                     col_has_ascii_base r = 1).
Proof.
  assert (Hnd0 : NoDup (map col_id ([] : list row))) by constructor.
  pose proof (store_ids_distinct U characters [] Hnd0) as Hnd.
  destruct (store_new_rows U characters []) as [new [E [F _]]].
  unfold store_data_in_db, setup_temp_database.
  rewrite E in *. simpl fst in *. simpl app in *.
  destruct (analyze_stored_spec U characters) as [conn' E'].
  unfold store_data_in_db, setup_temp_database in E'.
  rewrite E in E'. simpl fst in E'. simpl app in E'.
  rewrite analyze_characters_any in E'. injection E' as Ec E1 E2.
  eexists. split; [apply analyze_characters_any|]. simpl a_conn.
  simpl one_diacritic_results. simpl two_diacritics_results.
  assert (FF : Forall2 (fun c r =>
                          col_character r = c /\
                          col_has_ascii_base r = (if all_gatesb U c then 1 else 0))
                       characters
                       (map (fun r => if flagged U new r then with_ascii_base r else r)
                            new)).
  { eapply Forall2_map_in; [exact F|].
    intros c r Hin [Hc [_ [_ [Hl Hb]]]].
    rewrite (flagged_distinct_ids new r Hnd Hin), all_gatesb_split, Hl, Hc.
    destruct (contains (lit "LATIN") (name_or U c (lit ""))); simpl.
    - destruct (decomposition_gatesb U c); simpl; auto.
    - auto. }
  split; [exact FF|].
  intros c Hc. rewrite E1, E2, has_result_live. split.
  - intros [_ Hg].
    apply list_elem_of_In, list_elem_of_lookup in Hc. destruct Hc as [k Hk].
    destruct (Forall2_lookup_l _ _ _ _ _ FF Hk) as [r [Hr [H1 H2]]].
    exists r. rewrite Hg in H2.
    split; [apply list_elem_of_In, list_elem_of_lookup; eauto | auto].
  - intros [r [Hr [H1 H2]]]. split; [exact Hc|].
    apply list_elem_of_In, list_elem_of_lookup in Hr. destruct Hr as [k Hk].
    destruct (Forall2_lookup_r _ _ _ _ _ FF Hk) as [c' [_ [H3 H4]]].
    rewrite H1 in H3. subst c'. rewrite H2 in H4.
    destruct (all_gatesb U c); [reflexivity | discriminate].
Qed.

End RunFacts.

Lemma filter_map_same {A : Type} (p : A -> bool) (F : A -> A) (l : list A) :
  (forall x, p (F x) = p x) ->
  List.filter p (map F l) = map F (List.filter p l).
Proof.
  intros H. induction l as [|x l IH]; simpl; [reflexivity|].
  rewrite H. destruct (p x); simpl; rewrite IH; reflexivity.
Qed.

Lemma existsb_map_same {A : Type} (p : A -> bool) (F : A -> A) (l : list A) :
  (forall x, p (F x) = p x) ->
  existsb p (map F l) = existsb p l.
Proof.
  intros H. induction l as [|x l IH]; simpl; [reflexivity|].
  rewrite H, IH. reflexivity.
Qed.

Lemma sublist_List_filter {A : Type} (p : A -> bool) (l : list A) :
  sublist (List.filter p l) l.
Proof.
  induction l as [|x l IH]; simpl; [constructor|].
  destruct (p x); [apply sublist_skip | apply sublist_cons]; exact IH.
Qed.

Section MoreRunFacts.

Variable U : unicodedata.

(** X10.  Running [analyze_characters] again on the table it leaves gives
    the same two lists and leaves the table as it is. *)
Theorem analysis_rerun (conn : list row) :
  exists st st',
    analyze_characters U conn = Ok st /\
    analyze_characters U (a_conn st) = Ok st' /\
    one_diacritic_results st' = one_diacritic_results st /\
    two_diacritics_results st' = two_diacritics_results st /\
    a_conn st' = a_conn st.
Proof.
  do 2 eexists. split; [apply analyze_characters_any|].
  split; [apply analyze_characters_any|]. simpl a_conn.
  simpl one_diacritic_results. simpl two_diacritics_results.
  set (F := fun r => if flagged U conn r then with_ascii_base r else r).
  assert (HF : forall r, col_id (F r) = col_id r
                         /\ col_character (F r) = col_character r
                         /\ col_is_latin (F r) = col_is_latin r).
  { intros r. unfold F. destruct (flagged U conn r); repeat split. }
  assert (Hsel : select_latin (map F conn) = map F (select_latin conn)).
  { unfold select_latin. apply filter_map_same. intros r.
    destruct (HF r) as [_ [_ ->]]. reflexivity. }
  assert (Hchars : map col_character (select_latin (map F conn))
                   = map col_character (select_latin conn)).
  { rewrite Hsel, map_map. apply map_ext. intros r. apply HF. }
  assert (Hfl : forall r, flagged U (map F conn) r = flagged U conn r).
  { intros r. unfold flagged. rewrite Hsel. apply existsb_map_same.
    intros r'. destruct (HF r') as [-> [-> _]]. reflexivity. }
  unfold selected. rewrite Hchars. split; [reflexivity|]. split; [reflexivity|].
  rewrite map_map. apply map_ext. intros r. rewrite Hfl. unfold F.
  destruct (flagged U conn r) eqn:E.
  - change (flagged U conn (with_ascii_base r)) with (flagged U conn r).
    rewrite E. reflexivity.
  - rewrite E. reflexivity.
Qed.

(** X11.  Every result of the two live tables is made of the NFD form of an
    input character: the base is its first scalar value, the diacritics are
    the marks of its tail in their order, and there is at least one.  The
    first table holds the results with one diacritic, the second those with
    two or more.  When the whole tail consists of marks, base and diacritics
    together are the NFD form again. *)
Theorem live_result_shape (characters : list char) :
  exists rep,
    main U characters = Ok rep /\
    (forall e, In e (table1 rep ++ table2 rep) ->
       exists c b tl,
         In c characters /\ ucd_nfd U c = b :: tl /\
         e_char e = [c] /\ e_base e = [b] /\
         e_diacritics e = List.filter (is_mark U) tl /\
         e_diacritics e <> [] /\
         sublist (e_diacritics e) tl /\
         (forallb (is_mark U) tl = true ->
          e_base e ++ e_diacritics e = ucd_nfd U c)) /\
    (forall e, In e (table1 rep) -> length (e_diacritics e) = 1%nat) /\
    (forall e, In e (table2 rep) -> (2 <= length (e_diacritics e))%nat).
Proof.
  eexists. split; [apply main_spec|]. simpl table1. simpl table2.
  split; [|split].
  - intros e He. apply in_app_iff in He.
    assert (H : exists c, In c characters /\ all_gatesb U c = true
                          /\ e = result_of U c).
    { destruct He as [He | He]; apply in_bucket in He;
        destruct He as [c [Hin [Hg [_ ->]]]]; eauto. }
    destruct H as [c [Hin [Hg ->]]].
    destruct (gates_base U c Hg) as [b [tl [E Hb]]].
    pose proof (gates_marks U c Hg) as Hm.
    exists c, b, tl. unfold result_of, marks in *. rewrite E in *. simpl in *.
    repeat split; try assumption.
    + intros H. rewrite H in Hm. simpl in Hm. lia.
    + apply sublist_List_filter.
    + intros Hall. f_equal.
      apply forallb_filter_id. exact Hall.
  - intros e He. apply in_bucket in He.
    destruct He as [c [_ [_ [Hk ->]]]]. unfold category_of in Hk. simpl.
    destruct ((length (marks U c) =? 1)%nat) eqn:E; [|discriminate].
    apply Nat.eqb_eq. exact E.
  - intros e He. apply in_bucket in He.
    destruct He as [c [_ [Hg [Hk ->]]]]. unfold category_of in Hk. simpl.
    pose proof (gates_marks U c Hg) as Hm.
    destruct ((length (marks U c) =? 1)%nat) eqn:E; [discriminate|].
    apply Nat.eqb_neq in E. lia.
Qed.

(** X12.  On the characters the extraction returns, no character has two
    results: the characters of the two live tables are pairwise distinct.
    Each of them is beyond ASCII, so it differs from its base character, and
    the total is at most the number of extracted characters. *)
Theorem run_results_distinct (tables : list (list (list str))) :
  exists rep,
    run U tables = Ok rep /\
    NoDup (map e_char (table1 rep ++ table2 rep)) /\
    (forall e, In e (table1 rep ++ table2 rep) ->
       exists c, e_char e = [c] /\ 127 < c /\ e_base e <> e_char e) /\
    total_results rep <= N.of_nat (length (fetch_data_from_url tables)).
Proof.
  unfold run. eexists. split; [apply main_spec|].
  simpl table1. simpl table2. simpl total_results.
  set (cs := fetch_data_from_url tables).
  assert (Hnd : NoDup cs).
  { unfold cs, fetch_data_from_url. rewrite unique_chars_from.
    apply NoDup_unique_from. }
  split; [|split].
  - rewrite !bucket_filter_map, <- map_app, map_map. simpl.
    apply NoDup_fmap_2; [intros x y H; injection H; auto|].
    assert (Hf : forall p : N -> bool, NoDup (List.filter p cs)).
    { intros p. apply NoDup_ListNoDup, List.NoDup_filter, NoDup_ListNoDup, Hnd. }
    apply NoDup_app. split; [apply Hf|]. split; [|apply Hf].
    intros x H1 H2. apply list_elem_of_In in H1, H2.
    apply filter_In in H1, H2. destruct H1 as [_ H1], H2 as [_ H2].
    apply andb_true_iff in H1, H2. destruct H1 as [_ H1], H2 as [_ H2].
    destruct (category_of U x); discriminate.
  - intros e He. apply in_app_iff in He.
    assert (H : exists c, In c cs /\ all_gatesb U c = true /\ e = result_of U c).
    { destruct He as [He | He]; apply in_bucket in He;
        destruct He as [c [Hin [Hg [_ ->]]]]; eauto. }
    destruct H as [c [Hin [Hg ->]]].
    destruct (gates_base U c Hg) as [b [tl [E Hb]]].
    assert (Hc : 127 < c).
    { unfold cs in Hin. apply fetched_character_iff_aux in Hin. exact Hin. }
    exists c. unfold result_of. simpl. rewrite E. simpl.
    split; [reflexivity|]. split; [exact Hc|].
    intros H. injection H as ->.
    apply ASCII_LETTERS_spec in Hb. unfold is_ascii_letter in Hb. lia.
  - rewrite <- Nat2N.inj_add, live_total.
    pose proof (List.filter_length_le (all_gatesb U) cs) as H. lia.
Qed.

End MoreRunFacts.

(** ** Code point labels *)

Lemma hex_digit_spec (d : N) :
  d < 16 -> is_upper_hex (hex_digit d) /\ hex_value (hex_digit d) = Some d.
Proof.
  intros Hd. unfold hex_digit, hex_value, is_upper_hex.
  destruct (N.ltb_spec d 10) as [H | H].
  - split; [lia|].
    destruct (N.leb_spec 48 (48 + d)); [|lia].
    destruct (N.leb_spec (48 + d) 57); [|lia].
    simpl. f_equal. lia.
  - split; [lia|].
    destruct (N.leb_spec 48 (55 + d)); [|lia].
    destruct (N.leb_spec (55 + d) 57); [lia|].
    destruct (N.leb_spec 65 (55 + d)); [|lia].
    destruct (N.leb_spec (55 + d) 70); [|lia].
    simpl. f_equal. lia.
Qed.

Lemma int16_go_app (s1 s2 : str) (a : N) :
  int16_go (s1 ++ s2) a = bind (int16_go s1 a) (int16_go s2).
Proof.
  revert a. induction s1 as [|c s1 IH]; intros a; simpl; [reflexivity|].
  destruct (hex_value c); [apply IH | reflexivity].
Qed.

(** The digits [hex_go] puts in front of [acc] are the hexadecimal digits of
    [n], without leading zero, when the fuel suffices. *)
Lemma hex_go_spec (fuel : nat) (n : N) (acc : str) :
  n < 16 ^ N.of_nat fuel ->
  exists ds,
    hex_go fuel n acc = ds ++ acc /\
    Forall is_upper_hex ds /\
    (forall a, int16_go ds a = Ok (a * 16 ^ N.of_nat (length ds) + n)) /\
    ((ds = [] /\ n = 0) \/ (16 ^ N.of_nat (length ds) <= 16 * n)).
Proof.
  revert n acc. induction fuel as [|fuel IH]; intros n acc Hn.
  - exists []. simpl in *. repeat split; [constructor | intros a; f_equal; lia | left; split; [reflexivity | lia]].
  - simpl hex_go. destruct (N.eqb_spec n 0) as [-> | Hn0].
    + exists []. simpl. repeat split; [constructor | intros a; f_equal; lia | left; auto].
    + rewrite Nat2N.inj_succ, N.pow_succ_r' in Hn.
      assert (Hq : n / 16 < 16 ^ N.of_nat fuel).
      { apply N.Div0.div_lt_upper_bound. lia. }
      destruct (IH (n / 16) (hex_digit (n mod 16) :: acc) Hq)
        as [ds [E [F [V M]]]].
      assert (Hr : n mod 16 < 16) by (apply N.mod_lt; lia).
      destruct (hex_digit_spec _ Hr) as [Hd Hv].
      pose proof (N.div_mod n 16 ltac:(lia)) as Hdm.
      exists (ds ++ [hex_digit (n mod 16)]). repeat split.
      * rewrite E, <- app_assoc. reflexivity.
      * apply Forall_app. split; [exact F | constructor; [exact Hd | constructor]].
      * intros a. rewrite int16_go_app, V. unfold bind.
        change (int16_go [hex_digit (n mod 16)] ?v)
          with (match hex_value (hex_digit (n mod 16)) with
                | Some d => Ok (16 * v + d)
                | None => Raise ValueError
                end).
        rewrite Hv, length_app. simpl length.
        rewrite Nat.add_1_r, Nat2N.inj_succ, N.pow_succ_r'. f_equal.
        set (X := 16 ^ N.of_nat (length ds)) in *. nia.
      * right. rewrite length_app. simpl length.
        rewrite Nat.add_1_r, Nat2N.inj_succ, N.pow_succ_r'.
        destruct M as [[-> Hq0] | M].
        -- change (16 ^ N.of_nat (length (@nil N))) with 1. lia.
        -- remember (16 ^ N.of_nat (length ds)) as X eqn:EX.
           remember (n / 16) as q eqn:Eq. remember (n mod 16) as r eqn:Er.
           clear - M Hdm. lia.
Qed.

Lemma hex_upper_spec (n : N) :
  Forall is_upper_hex (hex_upper n) /\
  (forall a, int16_go (hex_upper n) a
             = Ok (a * 16 ^ N.of_nat (length (hex_upper n)) + n)) /\
  (1 <= length (hex_upper n))%nat /\
  16 ^ N.of_nat (length (hex_upper n)) <= 16 * N.max n 1.
Proof.
  destruct n as [|p].
  - simpl. repeat split; [repeat constructor; unfold is_upper_hex; lia | | lia | ].
    + intros a. f_equal. simpl. lia.
    + simpl. lia.
  - unfold hex_upper.
    assert (Hfuel : N.pos p < 16 ^ N.of_nat (N.to_nat (N.size (N.pos p)))).
    { rewrite N2Nat.id. pose proof (N.size_gt (N.pos p)) as H.
      assert (2 ^ N.size (N.pos p) <= 16 ^ N.size (N.pos p))
        by (apply N.pow_le_mono_l; lia).
      lia. }
    destruct (hex_go_spec _ _ [] Hfuel) as [ds [E [F [V M]]]].
    rewrite app_nil_r in E. rewrite E.
    repeat split; [exact F | exact V | |].
    + destruct M as [[_ H] | M]; [discriminate|].
      destruct ds; [|simpl; lia].
      specialize (V 0). simpl in V. discriminate V.
    + destruct M as [[_ H] | M]; [discriminate | lia].
Qed.

Lemma int16_go_zeros (k : nat) (s : str) :
  int16_go (repeat 48 k ++ s) 0 = int16_go s 0.
Proof. induction k as [|k IH]; simpl; [reflexivity | exact IH]. Qed.

Lemma format_04X_spec (c : N) :
  (4 <= length (format_04X c))%nat /\
  (c <= 0xFFFF -> length (format_04X c) = 4%nat) /\
  Forall is_upper_hex (format_04X c) /\
  int16 (format_04X c) = Ok c.
Proof.
  destruct (hex_upper_spec c) as [F [V [L M]]].
  assert (Hlen : length (format_04X c)
                 = ((4 - length (hex_upper c)) + length (hex_upper c))%nat).
  { unfold format_04X. cbv zeta. rewrite length_app, repeat_length. reflexivity. }
  split; [lia|]. split; [|split].
  - intros Hc.
    assert ((length (hex_upper c) <= 4)%nat); [|lia].
    destruct (le_lt_dec (length (hex_upper c)) 4) as [H | H]; [exact H|].
    exfalso.
    assert (16 ^ 5 <= 16 ^ N.of_nat (length (hex_upper c)))
      by (apply N.pow_le_mono_r; lia).
    change (16 ^ 5) with 1048576 in *. lia.
  - unfold format_04X. cbv zeta. apply Forall_app. split; [|exact F].
    apply Forall_forall. intros x Hx. apply list_elem_of_In, repeat_spec in Hx.
    subst x. unfold is_upper_hex. lia.
  - unfold int16.
    destruct (format_04X c) eqn:E; [simpl in Hlen; lia|].
    rewrite <- E. unfold format_04X. cbv zeta.
    rewrite int16_go_zeros, V. reflexivity.
Qed.

(** X13.  A code point label is "U+" followed by at least four upper-case
    hexadecimal digits, exactly four up to U+FFFF, and [int(_, 16)] reads the
    code point back from the digits. *)
Theorem code_point_label_digits (c : char) :
  exists digits,
    code_point_label c = lit "U+" ++ digits /\
    (4 <= length digits)%nat /\
    (c <= 0xFFFF -> length digits = 4%nat) /\
    Forall is_upper_hex digits /\
    int16 (skipn 2 (code_point_label c)) = Ok c.
Proof.
  destruct (format_04X_spec c) as [H1 [H2 [H3 H4]]].
  exists (format_04X c). unfold code_point_label, ord.
  repeat split; assumption.
Qed.









Section LabelFacts.

Variable U : unicodedata.


(** X15.  The code points the report prints under a character.  For a result
    of the two live tables [ord] is applied to a string of one character, so
    it does not fail, and the label is that of the input character.  For a
    fixed-pattern result the labels of the sequence, joined by blanks, are the
    entry of the source table again. *)
Theorem report_code_points (characters : list char) :
  exists rep,
    main U characters = Ok rep /\
    (forall e, In e (table1 rep ++ table2 rep) ->
       exists c, In c characters /\ e_char e = [c] /\
                 char_code_point (e_char e) = Some (code_point_label c)) /\
    Forall2 (fun pat e => combined_code_point_str (e_char e) = pat)
            patterns (table3 rep).
Proof.
  eexists. split; [apply main_spec|]. simpl table1. simpl table2. simpl table3.
  split.
  - intros e He. apply in_app_iff in He.
    assert (H : exists c, In c characters /\ e = result_of U c).
    { destruct He as [He | He]; apply in_bucket in He;
        destruct He as [c [Hin [_ [_ ->]]]]; eauto. }
    destruct H as [c [Hin ->]]. exists c. repeat split. exact Hin.
  - unfold patterns, table_entries. simpl map.
    repeat (constructor; [vm_compute; reflexivity|]). constructor.
Qed.

End LabelFacts.

